(** * Insolar network core: routing, authentication, relay, role selection

    A shallow embedding of the peer-to-peer core of the platform
    (package [host]: the DHT engine; package [jetcoordinator]: role
    selection; package [bootstrap]: discovery bootstrap), followed by the
    properties of the specification that it settles.

    Conventions of the embedding.
    - A Go [[]byte] is a list of integers (each byte a [Z] in [0, 256));
      base58 and hash strings are [string]s.
    - A Go [map[string]T] is a [gmap string T]; reading an absent key
      yields Go's zero value, which the readers below write out.
    - A Go [(value, error)] pair is a [result]; a run-time panic is the
      third constructor.
    - An interface held by a struct is a record (or class) of its methods.
    - Whatever the network answers is supplied by the caller as an
      explicit outcome, one per suspension point. *)

From Stdlib Require Import ZArith Lia.
From stdpp Require Import gmap strings list sorting relations.

Local Open Scope Z_scope.

(** ** Common data *)

Abbreviation bytes := (list Z).

(** Go errors: [errors.New] and [errors.Wrap]. Messages keep the format
    string of the source; the formatted arguments are not rendered. *)
Inductive error : Type :=
| New (msg : string)
| Wrap (cause : error) (msg : string).

Inductive result (A : Type) : Type :=
| Ok (a : A)
| Err (e : error)
| Panic (msg : string).
Arguments Ok {A} a.
Arguments Err {A} e.
Arguments Panic {A} msg.

(** Sequencing of fallible calls ([if err != nil { return nil, err }]). *)
#[export] Instance result_bind : MBind result := λ A B f r,
  match r with
  | Ok a => f a
  | Err e => Err e
  | Panic m => Panic m
  end.

(** [errors.Wrap(err, msg)] on the failure of a call. *)
Definition wrapf {A} (r : result A) (msg : string) : result A :=
  match r with
  | Err e => Err (Wrap e msg)
  | _ => r
  end.

(** [bytes.Compare] and [bytes.Equal]. *)
Fixpoint bytes_Compare (a b : bytes) : comparison :=
  match a, b with
  | [], [] => Eq
  | [], _ :: _ => Lt
  | _ :: _, [] => Gt
  | x :: a', y :: b' =>
      match x ?= y with
      | Eq => bytes_Compare a' b'
      | c => c
      end
  end.

Definition bytes_less (a b : bytes) : bool :=
  match bytes_Compare a b with Lt => true | _ => false end.

Definition bytes_Equal (a b : bytes) : bool := bool_decide (a = b).

(** [sort.SliceStable]: a stable sort by a [less] function. Every element
    is placed before the first one that is not less than it, from the
    right, so equal elements keep their order. *)
Fixpoint stable_insert {A} (less : A → A → bool) (x : A) (l : list A) : list A :=
  match l with
  | [] => [x]
  | y :: l' => if less y x then y :: stable_insert less x l' else x :: y :: l'
  end.

Definition SliceStable {A} (less : A → A → bool) (l : list A) : list A :=
  foldr (stable_insert less) [] l.

(** ** Package core: nodes, pulses, roles *)
Module core.

Inductive StaticRole := StaticRoleUnknown | StaticRoleVirtual
  | StaticRoleHeavyMaterial | StaticRoleLightMaterial.

Inductive DynamicRole := DynamicRoleUndefined | DynamicRoleVirtualExecutor
  | DynamicRoleVirtualValidator | DynamicRoleLightExecutor
  | DynamicRoleLightValidator | DynamicRoleHeavyExecutor.

(** The observable part of the [core.Node] interface. [RecordRef] and
    [RecordID] are byte arrays, [ShortNodeID] a [uint32]. *)
Record Node := {
  ID : bytes;
  ShortID : Z;
  Role : StaticRole;
  PublicKey : bytes;
  PhysicalAddress : string;
  Version : string
}.

Record Pulse := {
  PulseNumber : Z;
  Entropy : bytes
}.

End core.

(** ** Package jetcoordinator *)
Module jetcoordinator.
Import core.

(** What the coordinator reads from packages that are not modelled: the
    accessors of [core.RecordID], the jet tree and the hasher of the
    cryptography scheme. *)
Class Deps := {
  RecordID_Pulse : bytes → Z;
  RecordID_Hash : bytes → bytes;
  PulseNumberJet : Z;
  JetTree : Type;
  JetTree_Find : JetTree → bytes → bytes;
  jet_Jet_prefix : bytes → bytes;
  ReferenceHasher : bytes → bytes → bytes
}.

Section coordinator.
Context `{Deps}.

(** The coordinator holds its collaborators as interfaces; each one is
    given by the answers of its methods. *)
Record JetCoordinator := {
  NodeStorage_GetActiveNodesByRole : Z → StaticRole → result (list Node);
  PulseStorage_Current : result Pulse;
  PulseTracker_GetPulse : Z → result Pulse;
  JetStorage_GetJetTree : Z → result JetTree
}.

Definition VirtualValidatorCount : nat := 3.
Definition MaterialValidatorCount : nat := 3.
Definition VirtualExecutorCount : nat := 1.
Definition MaterialExecutorCount : nat := 1.

(** [circleXOR]: the loop over [range result]; [i % srcLen] panics when
    [src] is empty and the loop body runs at all. *)
Definition circleXOR (value src : bytes) : result bytes :=
  let srcLen := length src in
  if bool_decide (srcLen = 0%nat) && negb (bool_decide (length value = 0%nat))
  then Panic "integer divide by zero"
  else Ok (imap (λ i v, Z.lxor v (nth (i mod srcLen) src 0)) value).

(** Modelled from the spec: [entropy.SelectByEntropy] (package
    utils/entropy) is not among the sources. The spec has it
    "deterministically draw n distinct candidates using mix as entropy"
    by "hash-based weighted sampling supplied by the crypto scheme":
    every candidate is weighted by the scheme's hash of the entropy and
    the candidate, the [count] candidates of least weight are drawn in
    that order, and a draw of more candidates than there are fails. *)
Definition SelectByEntropy (entropy : bytes) (values : list bytes) (count : nat)
  : result (list bytes) :=
  if bool_decide (length values < count)%nat
  then Err (New "count value should be less than values size")
  else Ok (take count
         (SliceStable (λ a b, bytes_less (ReferenceHasher entropy a)
                                         (ReferenceHasher entropy b)) values)).

Definition getRefs (e : bytes) (values : list Node) (count : nat)
  : result (list bytes) :=
  let values := SliceStable (λ v1 v2, bytes_less (ID v1) (ID v2)) values in
  let in_ := ID <$> values in
  res ← SelectByEntropy e in_ count;
  Ok res.

Definition entropy (jc : JetCoordinator) (pulse : Z) : result bytes :=
  current ← wrapf (PulseStorage_Current jc) "failed to get current pulse";
  if bool_decide (PulseNumber current = pulse) then Ok (Entropy current)
  else
    older ← wrapf (PulseTracker_GetPulse jc pulse)
                  "failed to fetch pulse data for pulse %v";
    Ok (Entropy older).

Definition virtualsForObject (jc : JetCoordinator) (objID : bytes) (pulse : Z)
    (count : nat) : result (list bytes) :=
  candidates ← wrapf (NodeStorage_GetActiveNodesByRole jc pulse StaticRoleVirtual)
                     "failed to fetch active virtual nodes for pulse %v";
  if bool_decide (length candidates = 0%nat)
  then Err (New "no active virtual nodes for pulse %d")
  else
    ent ← wrapf (entropy jc pulse) "failed to fetch entropy for pulse %v";
    mix ← circleXOR ent (RecordID_Hash objID);
    getRefs mix candidates count.

Definition lightMaterialsForJet (jc : JetCoordinator) (jetID : bytes) (pulse : Z)
    (count : nat) : result (list bytes) :=
  let prefix := jet_Jet_prefix jetID in
  candidates ← wrapf (NodeStorage_GetActiveNodesByRole jc pulse StaticRoleLightMaterial)
                     "failed to fetch active light nodes for pulse %v";
  if bool_decide (length candidates = 0%nat)
  then Err (New "no active light nodes for pulse %d")
  else
    ent ← wrapf (entropy jc pulse) "failed to fetch entropy for pulse %v";
    mix ← circleXOR ent prefix;
    getRefs mix candidates count.

(** [&nodes[0]]: indexing an empty slice panics. *)
Definition first_ref (nodes : result (list bytes)) : result bytes :=
  match nodes with
  | Ok (n :: _) => Ok n
  | Ok [] => Panic "index out of range"
  | Err e => Err e
  | Panic m => Panic m
  end.

(** [nodes[k:]]: slicing beyond the length panics. *)
Definition skip_refs (k : nat) (nodes : result (list bytes)) : result (list bytes) :=
  match nodes with
  | Ok l => if bool_decide (length l < k)%nat
            then Panic "slice bounds out of range" else Ok (drop k l)
  | Err e => Err e
  | Panic m => Panic m
  end.

Definition Heavy (jc : JetCoordinator) (pulse : Z) : result bytes :=
  candidates ← wrapf (NodeStorage_GetActiveNodesByRole jc pulse StaticRoleHeavyMaterial)
                     "failed to fetch active heavy nodes for pulse %v";
  if bool_decide (length candidates = 0%nat)
  then Err (New "no active heavy nodes for pulse %d")
  else
    ent ← wrapf (entropy jc pulse) "failed to fetch entropy for pulse %v";
    first_ref (getRefs ent candidates 1).

Definition VirtualExecutorForObject (jc : JetCoordinator) (objID : bytes) (pulse : Z)
  : result bytes :=
  first_ref (virtualsForObject jc objID pulse VirtualExecutorCount).

Definition VirtualValidatorsForObject (jc : JetCoordinator) (objID : bytes) (pulse : Z)
  : result (list bytes) :=
  skip_refs VirtualExecutorCount
    (virtualsForObject jc objID pulse (VirtualValidatorCount + VirtualExecutorCount)).

Definition LightExecutorForJet (jc : JetCoordinator) (jetID : bytes) (pulse : Z)
  : result bytes :=
  first_ref (lightMaterialsForJet jc jetID pulse MaterialExecutorCount).

Definition LightValidatorsForJet (jc : JetCoordinator) (jetID : bytes) (pulse : Z)
  : result (list bytes) :=
  skip_refs MaterialExecutorCount
    (lightMaterialsForJet jc jetID pulse (MaterialValidatorCount + MaterialExecutorCount)).

Definition LightExecutorForObject (jc : JetCoordinator) (objID : bytes) (pulse : Z)
  : result bytes :=
  tree ← wrapf (JetStorage_GetJetTree jc pulse) "failed to fetch jet tree";
  let jetID := JetTree_Find tree objID in
  LightExecutorForJet jc jetID pulse.

Definition LightValidatorsForObject (jc : JetCoordinator) (objID : bytes) (pulse : Z)
  : result (list bytes) :=
  tree ← wrapf (JetStorage_GetJetTree jc pulse)
               "failed to fetch jet tree for pulse %v";
  let jetID := JetTree_Find tree objID in
  LightValidatorsForJet jc jetID pulse.

(** A single reference as a one-element list. *)
Definition one_ref (node : result bytes) : result (list bytes) :=
  n ← node; Ok [n].

Definition QueryRole (jc : JetCoordinator) (role : DynamicRole) (objID : bytes)
    (pulse : Z) : result (list bytes) :=
  match role with
  | DynamicRoleVirtualExecutor => one_ref (VirtualExecutorForObject jc objID pulse)
  | DynamicRoleVirtualValidator => VirtualValidatorsForObject jc objID pulse
  | DynamicRoleLightExecutor =>
      if bool_decide (RecordID_Pulse objID = PulseNumberJet)
      then one_ref (LightExecutorForJet jc objID pulse)
      else one_ref (LightExecutorForObject jc objID pulse)
  | DynamicRoleLightValidator => LightValidatorsForObject jc objID pulse
  | DynamicRoleHeavyExecutor => one_ref (Heavy jc pulse)
  | DynamicRoleUndefined => Panic "unexpected role"
  end.

(** The membership loop of [IsAuthorized]. *)
Fixpoint ref_among (node : bytes) (nodes : list bytes) : bool :=
  match nodes with
  | [] => false
  | n :: rest => if bool_decide (n = node) then true else ref_among node rest
  end.

Definition IsAuthorized (jc : JetCoordinator) (role : DynamicRole) (obj : bytes)
    (pulse : Z) (node : bytes) : result bool :=
  nodes ← QueryRole jc role obj pulse;
  Ok (ref_among node nodes).

End coordinator.
End jetcoordinator.

(** ** Package host: the DHT engine *)
Module host.

(** [node.Node]: the hash of an [id.ID] and an address. *)
Record Node := {
  ID : bytes;
  Address : string
}.

#[export] Instance Node_eq_dec : EqDecision Node.
Proof. solve_decision. Defined.

(** [routing.HashTable], as far as the engine reads and writes its
    fields: the origin and the buckets of contacts, head first. *)
Record HashTable := {
  Origin : Node;
  RoutingTable : list (list Node)
}.

(** Modelled from the spec: [routing.MaxContactsInBucket] is declared in
    package routing, which is not among the sources; the spec gives
    K = MaxContactsInBucket = 20. *)
Definition MaxContactsInBucket : Z := 20.

(** The packages the engine calls into and that are not modelled: the
    base58 codec, the queries of package routing, the content store, the
    relay and the proxy. Each is an interface; the engine is verified
    against every implementation. *)
Class Packages := {
  base58_Decode : string → bytes;
  base58_Encode : bytes → string;
  GetBucketIndexFromDifferingBit : bytes → bytes → nat;
  DoesNodeExistInBucket : HashTable → nat → bytes → bool;
  MarkNodeAsSeen : HashTable → bytes → HashTable;
  GetTotalNodesInBucket : HashTable → nat → nat;
  GetAllNodesInBucketCloserThan : HashTable → nat → bytes → list Node;
  GetClosestContacts : HashTable → Z → bytes → list Node → list Node;
  Store : Type;
  store_Retrieve : Store → bytes → option bytes * bool;
  Relay : Type;
  relay_AddClient : Relay → Node → Relay * option error;
  relay_RemoveClient : Relay → Node → Relay * option error;
  Proxy : Type;
  ProxyNodesCount : Proxy → Z;
  GetNextProxyAddress : Proxy → string * Proxy
}.

(** *** Packets *)

Inductive PacketType := TypePing | TypeFindNode | TypeFindValue | TypeStore
  | TypeRPC | TypeRelay | TypeAuth | TypeCheckOrigin | TypeObtainIP
  | TypeRelayOwnership | TypeKnownOuterNodes.

Inductive CommandType := CommandUnknown | StartRelay | StopRelay | BeginAuth
  | RevokeAuth.

(** [relay.State] *)
Inductive State := Unknown | Started | Stopped | Error | NoAuth.

(** The payloads the handlers below assert on. A nil key is the empty
    list: the source only takes its length and compares it with
    [bytes.Equal], which do not tell nil from empty. *)
Inductive PacketData :=
| NoData
| RequestDataFindNode (Target : bytes)
| RequestDataStore (Data : bytes)
| RequestRelay (Command : CommandType)
| ResponseRelay (st : State)
| RequestAuth (Command : CommandType)
| ResponseAuth (Success : bool) (AuthUniqueKey : bytes)
| RequestCheckOrigin
| ResponseCheckOrigin (AuthUniqueKey : bytes).

Record Packet := {
  Sender : Node;
  Receiver : Node;
  Type_ : PacketType;
  RequestID : Z;
  Data : PacketData
}.

(** What a handler hands to the transport, in order. *)
Inductive Sent :=
| SendResponse (requestID : Z) (p : Packet)
| SendRequest (p : Packet).

(** What becomes of a request: [SendRequest] fails, or the future yields
    a packet, or its channel is closed, or the timeout fires first. *)
Inductive Await :=
| SendFailed (e : error)
| Answered (rsp : Packet)
| ChannelClosed
| TimedOut.

(** *** State of the node *)

Record Options := {
  ExpirationTime : Z;
  RefreshTime : Z;
  ReplicateTime : Z;
  RepublishTime : Z;
  PingTimeout : Z;
  PacketTimeout : Z
}.

Record AuthInfo := {
  SentKeys : gmap string bytes;
  ReceivedKeys : gmap string bytes;
  authenticatedNodes : gmap string bool
}.

(** Reading a Go map: an absent key reads as the zero value. *)
Definition sentKey (a : AuthInfo) (id : string) : bytes :=
  default [] (SentKeys a !! id).
Definition authenticated (a : AuthInfo) (id : string) : bool :=
  default false (authenticatedNodes a !! id).

Section engine.
Context `{Packages}.

Record DHT := {
  tables : list HashTable;
  options : Options;
  store : Store;
  relay : Relay;
  proxy : Proxy;
  auth : AuthInfo
}.

Definition with_tables (dht : DHT) (t : list HashTable) : DHT :=
  {| tables := t; options := options dht; store := store dht;
     relay := relay dht; proxy := proxy dht; auth := auth dht |}.
Definition with_relay (dht : DHT) (r : Relay) : DHT :=
  {| tables := tables dht; options := options dht; store := store dht;
     relay := r; proxy := proxy dht; auth := auth dht |}.
Definition with_proxy (dht : DHT) (p : Proxy) : DHT :=
  {| tables := tables dht; options := options dht; store := store dht;
     relay := relay dht; proxy := p; auth := auth dht |}.
Definition with_auth (dht : DHT) (a : AuthInfo) : DHT :=
  {| tables := tables dht; options := options dht; store := store dht;
     relay := relay dht; proxy := proxy dht; auth := a |}.

(** A context selects one of the node's tables by index. A method that
    changes the node returns its Go results with the new state; [Panic]
    is a run-time panic and [Err] is not used: the Go error is one of
    the results. *)
Definition htFromCtx (dht : DHT) (ctx : nat) : result HashTable :=
  match tables dht !! ctx with
  | Some ht => Ok ht
  | None => Panic "index out of range"
  end.

(** *** Adaptive expiration *)

(** [int64] arithmetic wraps around. *)
Definition wrap64 (z : Z) : Z := (z + 2 ^ 63) `mod` 2 ^ 64 - 2 ^ 63.

(** [time.Second], in nanoseconds. *)
Definition Second : Z := 1000000000.

(** [int64(math.Exp(float64(n)))] for the quotients [K / score] the
    engine can form, [0 <= n <= 20]: the integer part of e^n. *)
Definition math_Exp_int64 (n : Z) : Z :=
  nth (Z.to_nat n)
    [1; 2; 7; 20; 54; 148; 403; 1096; 2980; 8103; 22026; 59874; 162754;
     442413; 1202604; 3269017; 8886110; 24154952; 65659969; 178482300;
     485165195] 0.

(** The score of a key: the contacts of the buckets below the key's
    bucket, and the contacts of that bucket closer to the key. *)
Definition score_of (ht : HashTable) (key : bytes) : Z :=
  let bucket := GetBucketIndexFromDifferingBit key (ID (Origin ht)) in
  let total := foldl (λ total i, total + Z.of_nat (GetTotalNodesInBucket ht i))
                     0 (seq 0 bucket) in
  let closer := GetAllNodesInBucketCloserThan ht bucket key in
  total + Z.of_nat (length closer).

(** The duration of the lengthening branch, from the score at hand. *)
Definition lengthened (day : Z) (score : Z) : Z :=
  let seconds := wrap64 (day * math_Exp_int64 (MaxContactsInBucket `quot` score)) in
  wrap64 (Second * seconds).

(** Times are nanoseconds since the epoch; [now] is [time.Now()]. *)
Definition getExpirationTime (dht : DHT) (ctx : nat) (key : bytes) (now : Z)
  : result Z :=
  ht ← htFromCtx dht ctx;
  let score := score_of ht key in
  let score := if bool_decide (score = 0) then 1 else score in
  if bool_decide (score > MaxContactsInBucket)
  then Ok (now + ExpirationTime (options dht))
  else
    let day := ExpirationTime (options dht) in
    let dur := lengthened day score in
    Ok (now + dur).

(** *** Routing table insertion *)

Definition set_bucket (ht : HashTable) (index : nat) (bucket : list Node) : HashTable :=
  {| Origin := Origin ht; RoutingTable := <[index := bucket]> (RoutingTable ht) |}.

(** [ping] is what becomes of the ping of the head, should the bucket be
    full. *)
Definition addNode (dht : DHT) (ctx : nat) (node : Node) (ping : Await)
  : result DHT :=
  ht ← htFromCtx dht ctx;
  let index := GetBucketIndexFromDifferingBit (ID (Origin ht)) (ID node) in
  if DoesNodeExistInBucket ht index (ID node)
  then Ok (with_tables dht (<[ctx := MarkNodeAsSeen ht (ID node)]> (tables dht)))
  else
    match RoutingTable ht !! index with
    | None => Panic "index out of range"
    | Some bucket =>
        let write bucket :=
          Ok (with_tables dht (<[ctx := set_bucket ht index bucket]> (tables dht))) in
        if bool_decide (Z.of_nat (length bucket) = MaxContactsInBucket)
        then
          match ping with
          | SendFailed _ => write (drop 1 (bucket ++ [node]))
          | Answered _ | ChannelClosed => Ok dht
          | TimedOut => write (drop 1 bucket ++ [node])
          end
        else write (bucket ++ [node])
    end.

(** *** Lookups *)

(** What a call of [iterate] leaves behind: its three results and the
    routing tables after the contacts it learnt were added. The rounds
    of queries themselves belong to the network. *)
Record Iterated := {
  it_value : option bytes;
  it_closest : list Node;
  it_err : option error;
  it_tables : list HashTable
}.

Definition Get (dht : DHT) (ctx : nat) (key : string) (it : Iterated)
  : result ((option bytes * bool * option error) * DHT) :=
  let keyBytes := base58_Decode key in
  if bool_decide (Z.of_nat (length keyBytes) ≠ MaxContactsInBucket)
  then Ok ((None, false, Some (New "invalid key")), dht)
  else
    let '(value, exists_) := store_Retrieve (store dht) keyBytes in
    if negb exists_ then
      let dht := with_tables dht (it_tables it) in
      match it_err it with
      | Some err => Ok ((None, false, Some err), dht)
      | None =>
          let value := it_value it in
          Ok ((value, bool_decide (value ≠ None), None), dht)
      end
    else Ok ((value, exists_, None), dht).

(** The closing loop of [FindNode]: the last of the closest nodes with
    the key's hash, if any. *)
Definition find_target (keyBytes : bytes) (closest : list Node) : option Node :=
  foldl (λ target n, if bytes_Equal (ID n) keyBytes then Some n else target)
        None closest.

Definition FindNode (dht : DHT) (ctx : nat) (key : string) (it : Iterated)
  : result ((option Node * bool * option error) * DHT) :=
  let keyBytes := base58_Decode key in
  if bool_decide (Z.of_nat (length keyBytes) ≠ MaxContactsInBucket)
  then Ok ((None, false, Some (New "invalid key")), dht)
  else
    ht ← htFromCtx dht ctx;
    if bytes_Equal (ID (Origin ht)) keyBytes
    then Ok ((Some (Origin ht), true, None), dht)
    else
      let routeSet := GetClosestContacts ht 1 keyBytes [] in
      let hit := match routeSet with
                 | first :: _ => bytes_Equal (ID first) keyBytes
                 | [] => false
                 end in
      if hit then Ok ((head routeSet, true, None), dht)
      else if bool_decide (ProxyNodesCount (proxy dht) > 0) then
        let '(address, proxy') := GetNextProxyAddress (proxy dht) in
        let targetNode := {| ID := keyBytes; Address := address |} in
        Ok ((Some targetNode, true, None), with_proxy dht proxy')
      else
        let dht := with_tables dht (it_tables it) in
        match it_err it with
        | Some err => Ok ((None, false, Some err), dht)
        | None =>
            let targetNode := find_target keyBytes (it_closest it) in
            Ok ((targetNode, bool_decide (targetNode ≠ None), None), dht)
        end.

(** *** Packet handlers *)

(** [id.HashString]: the base58 form of the hash. *)
Definition HashString (id : bytes) : string := base58_Encode id.

(** [packetBuilder.Response(data).Build()] *)
Definition Response (packetBuilder : Packet) (data : PacketData) : Packet :=
  {| Sender := Sender packetBuilder; Receiver := Receiver packetBuilder;
     Type_ := Type_ packetBuilder; RequestID := RequestID packetBuilder;
     Data := data |}.

(** The builder [dispatchPacketType] hands to every handler. *)
Definition newBuilder (ht : HashTable) (msg : Packet) : Packet :=
  {| Sender := Origin ht; Receiver := Sender msg; Type_ := Type_ msg;
     RequestID := 0; Data := NoData |}.

Definition processRelay (dht : DHT) (ctx : nat) (msg : Packet)
    (packetBuilder : Packet) (ping : Await) : result (DHT * list Sent) :=
  if negb (authenticated (auth dht) (HashString (ID (Sender msg)))) then
    let response := ResponseRelay NoAuth in
    Ok (dht, [SendResponse (RequestID msg) (Response packetBuilder response)])
  else
    match Data msg with
    | RequestRelay command =>
        dht ← addNode dht ctx (Sender msg) ping;
        let '(dht, err, state) :=
          match command with
          | StartRelay =>
              let '(r, err) := relay_AddClient (relay dht) (Sender msg) in
              (with_relay dht r, err, Started)
          | StopRelay =>
              let '(r, err) := relay_RemoveClient (relay dht) (Sender msg) in
              (with_relay dht r, err, Stopped)
          | _ => (dht, None, Unknown)
          end in
        let state := match err with Some _ => Error | None => state end in
        let response := ResponseRelay state in
        Ok (dht, [SendResponse (RequestID msg) (Response packetBuilder response)])
    | _ => Panic "interface conversion"
    end.

Definition handleCheckOriginResponse (a : AuthInfo) (AuthUniqueKey : bytes)
    (targetID : string) : AuthInfo :=
  if bytes_Equal AuthUniqueKey (sentKey a targetID) then
    {| SentKeys := delete targetID (SentKeys a);
       ReceivedKeys := ReceivedKeys a;
       authenticatedNodes := <[targetID := true]> (authenticatedNodes a) |}
  else a.

Definition handleAuthResponse (a : AuthInfo) (Success : bool)
    (AuthUniqueKey : bytes) (target : string) : AuthInfo * option error :=
  if negb (bool_decide (length AuthUniqueKey = 0%nat)) && Success then
    ({| SentKeys := SentKeys a;
        ReceivedKeys := <[target := AuthUniqueKey]> (ReceivedKeys a);
        authenticatedNodes := authenticatedNodes a |}, None)
  else if Success && bool_decide (length AuthUniqueKey = 0%nat) then (a, None)
  else if negb Success then (a, Some (New "authentication unsuccessful"))
  else if bool_decide (length AuthUniqueKey = 0%nat)
  then (a, Some (New "wrong auth unique key received"))
  else (a, None).

Definition processCheckOriginRequest (dht : DHT) (msg : Packet)
    (packetBuilder : Packet) : list Sent :=
  match ReceivedKeys (auth dht) !! HashString (ID (Sender msg)) with
  | Some key =>
      let response := ResponseCheckOrigin key in
      [SendResponse (RequestID msg) (Response packetBuilder response)]
  | None => []
  end.

(** [packet.NewCheckOriginPacket] *)
Definition NewCheckOriginPacket (origin target : Node) : Packet :=
  {| Sender := origin; Receiver := target; Type_ := TypeCheckOrigin;
     RequestID := 0; Data := RequestCheckOrigin |}.

(** [it] is what the lookup of the target leaves, [co] what becomes of
    the request. *)
Definition CheckOriginRequest (dht : DHT) (ctx : nat) (targetID : string)
    (it : Iterated) (co : Await) : result (option error * DHT * list Sent) :=
  '(found, dht) ← FindNode dht ctx targetID it;
  let '(targetNode, exists_, err) := found in
  match err with
  | Some err => Ok (Some err, dht, [])
  | None =>
      if negb exists_
      then Ok (Some (New "target for relay request not found"), dht, [])
      else
        match targetNode with
        | None => Panic "nil pointer dereference"
        | Some targetNode =>
            ht ← htFromCtx dht ctx;
            let request := NewCheckOriginPacket (Origin ht) targetNode in
            match co with
            | SendFailed err => Ok (Some err, dht, [])
            | ChannelClosed =>
                Ok (Some (New "chanel closed unexpectedly"), dht, [SendRequest request])
            | Answered rsp =>
                match Data rsp with
                | ResponseCheckOrigin key =>
                    let a := handleCheckOriginResponse (auth dht) key targetID in
                    Ok (None, with_auth dht a, [SendRequest request])
                | _ => Panic "interface conversion"
                end
            | TimedOut => Ok (Some (New "timeout"), dht, [SendRequest request])
            end
        end
  end.

(** [crypto/rand.Read] fills the whole buffer or fails. The bytes come
    from the environment: [source] is what the generator yields next,
    and a source that runs short is the failure. *)
Definition rand_Read (source : bytes) (n : nat) : option bytes :=
  if bool_decide (length source < n)%nat then None else Some (take n source).

Definition processAuthentication (dht : DHT) (ctx : nat) (msg : Packet)
    (packetBuilder : Packet) (source : bytes) (it : Iterated) (co : Await)
  : result (DHT * list Sent) :=
  match Data msg with
  | RequestAuth command =>
      let sender := HashString (ID (Sender msg)) in
      match command with
      | BeginAuth =>
          if authenticated (auth dht) sender then
            let response := ResponseAuth false [] in
            Ok (dht, [SendResponse (RequestID msg) (Response packetBuilder response)])
          else
            match rand_Read source 512 with
            | None => Ok (dht, [])
            | Some key =>
                let a := auth dht in
                let dht := with_auth dht
                  {| SentKeys := <[sender := key]> (SentKeys a);
                     ReceivedKeys := ReceivedKeys a;
                     authenticatedNodes := authenticatedNodes a |} in
                let response := ResponseAuth true key in
                let sent := [SendResponse (RequestID msg)
                               (Response packetBuilder response)] in
                '(_, dht, sent') ← CheckOriginRequest dht ctx sender it co;
                Ok (dht, sent ++ sent')
            end
      | RevokeAuth =>
          let a := auth dht in
          let dht := with_auth dht
            {| SentKeys := SentKeys a;
               ReceivedKeys := ReceivedKeys a;
               authenticatedNodes := delete sender (authenticatedNodes a) |} in
          let response := ResponseAuth true [] in
          Ok (dht, [SendResponse (RequestID msg) (Response packetBuilder response)])
      | _ => Ok (dht, [])
      end
  | _ => Panic "interface conversion"
  end.

End engine.

(** *** The authentication handshake between nodes

    A network of nodes that all run the handlers above, each node with
    its [AuthInfo], and the packets of the handshake that are under way.
    A node is named by the hash string of its identifier. Every handler
    runs at its own time: a response and the request that follows it
    may be handled in either order, and any packet may be lost (its
    future times out). *)

Inductive Flying :=
| AuthResponse (from to : string) (Success : bool) (AuthUniqueKey : bytes)
| CheckOrigin (from to : string)
| CheckOriginResponse (from to : string) (AuthUniqueKey : bytes).

Record Network := {
  nodes : gmap string AuthInfo;
  flying : list Flying
}.

(** What [NewDHT] makes: three empty maps. *)
Definition newAuth : AuthInfo :=
  {| SentKeys := ∅; ReceivedKeys := ∅; authenticatedNodes := ∅ |}.

Definition auth_of (net : Network) (n : string) : AuthInfo :=
  default newAuth (nodes net !! n).

Definition start : Network := {| nodes := ∅; flying := [] |}.

(** The [BeginAuth] case of [processAuthentication] at the receiver, up
    to the packets it sends: the response, and the origin check when a
    key was issued. *)
Definition beginAuth (a : AuthInfo) (me sender : string) (source : bytes)
  : AuthInfo * list Flying :=
  if authenticated a sender then (a, [AuthResponse me sender false []])
  else
    match rand_Read source 512 with
    | None => (a, [])
    | Some key =>
        ({| SentKeys := <[sender := key]> (SentKeys a);
            ReceivedKeys := ReceivedKeys a;
            authenticatedNodes := authenticatedNodes a |},
         [AuthResponse me sender true key; CheckOrigin me sender])
    end.

(** The [RevokeAuth] case. *)
Definition revokeAuth (a : AuthInfo) (me sender : string)
  : AuthInfo * list Flying :=
  ({| SentKeys := SentKeys a;
      ReceivedKeys := ReceivedKeys a;
      authenticatedNodes := delete sender (authenticatedNodes a) |},
   [AuthResponse me sender true []]).

(** The receiver of a packet under way handles it. *)
Definition handle (a : AuthInfo) (p : Flying) : AuthInfo * list Flying :=
  match p with
  | AuthResponse from to Success key =>
      ((handleAuthResponse a Success key from).1, [])
  | CheckOrigin from to =>
      match ReceivedKeys a !! from with
      | Some key => (a, [CheckOriginResponse to from key])
      | None => (a, [])
      end
  | CheckOriginResponse from to key =>
      (handleCheckOriginResponse a key from, [])
  end.

Definition receiver (p : Flying) : string :=
  match p with
  | AuthResponse _ to _ _ | CheckOrigin _ to | CheckOriginResponse _ to _ => to
  end.

Inductive Event :=
| Begin (a b : string) (source : bytes)   (* b handles Auth(Begin) of a *)
| Revoke (a b : string)                   (* b handles Auth(Revoke) of a *)
| Probe (b a : string)                    (* b calls CheckOriginRequest(a) *)
| Deliver (i : nat)                       (* packet i reaches its receiver *)
| Lose (i : nat).                         (* packet i is lost *)

Definition update (net : Network) (n : string) (r : AuthInfo * list Flying)
    (rest : list Flying) : Network :=
  {| nodes := <[n := r.1]> (nodes net); flying := rest ++ r.2 |}.

Definition step (net : Network) (e : Event) : Network :=
  match e with
  | Begin a b source =>
      update net b (beginAuth (auth_of net b) b a source) (flying net)
  | Revoke a b =>
      update net b (revokeAuth (auth_of net b) b a) (flying net)
  | Probe b a =>
      {| nodes := nodes net; flying := flying net ++ [CheckOrigin b a] |}
  | Deliver i =>
      match flying net !! i with
      | Some p =>
          update net (receiver p) (handle (auth_of net (receiver p)) p)
                 (delete i (flying net))
      | None => net
      end
  | Lose i => {| nodes := nodes net; flying := delete i (flying net) |}
  end.

Definition run (events : list Event) : Network := foldl step start events.

Definition reachable (net : Network) : Prop := ∃ events, net = run events.

(** *** Distance *)

(** [big.Int.SetBytes]: the bytes as a big-endian unsigned integer. *)
Definition SetBytes (buf : bytes) : Z := foldl (λ acc x, acc * 256 + x) 0 buf.

Definition GetDistance (id1 id2 : bytes) : Z :=
  let buf1 := SetBytes id1 in
  let buf2 := SetBytes id2 in
  Z.lxor buf1 buf2.

(** *** One batch of an iterative query *)

Inductive IterateType := IterateStore | IterateFindNode | IterateFindValue
  | IterateBootstrap.

(** Modelled from the spec: [routing.ParallelCalls] is declared in
    package routing, which is not among the sources; the spec gives
    α = ParallelCalls = 3. *)
Definition ParallelCalls : nat := 3.

(** The query [getPacketBuilder] puts into a packet: its type and the
    target of its request. *)
Inductive Query :=
| QueryFindNode (Target : bytes)
| QueryFindValue (Target : bytes).

Definition getPacketBuilder (t : IterateType) (target : bytes) : Query :=
  match t with
  | IterateBootstrap | IterateFindNode => QueryFindNode target
  | IterateFindValue => QueryFindValue target
  | IterateStore => QueryFindNode target
  end.

(** A request of the batch: the receiver and the query. *)
Record Asked := {
  asked_Receiver : Node;
  asked_Query : Query
}.

(** Reading the map of contacted nodes; its keys are the hashes. *)
Definition was_contacted (contacted : gmap (list Z) bool) (id : bytes) : bool :=
  default false (contacted !! id).

(** The loop of [sendPacketToAlphaNodes] from position [i] of the route
    set on. [send] tells of each request whether [SendRequest] fails on
    it. The map of contacted nodes is shared with the caller, so it is
    returned with the futures (one per request sent) and the receivers
    to remove from the route set. *)
Fixpoint sendPacketToAlphaNodes_from (i : nat) (nodes : list Node) (queryRest : bool)
    (t : IterateType) (contacted : gmap (list Z) bool) (target : bytes)
    (futures : list Asked) (removeFromRouteSet : list Node)
    (send : Asked → option error)
  : list Asked * list Node * gmap (list Z) bool :=
  match nodes with
  | [] => (futures, removeFromRouteSet, contacted)
  | receiver :: nodes =>
      if bool_decide (ParallelCalls ≤ i)%nat && negb queryRest
      then (futures, removeFromRouteSet, contacted)
      else if was_contacted contacted (ID receiver)
      then sendPacketToAlphaNodes_from (S i) nodes queryRest t contacted target
             futures removeFromRouteSet send
      else
        let contacted := <[ID receiver := true]> contacted in
        let msg := {| asked_Receiver := receiver;
                      asked_Query := getPacketBuilder t target |} in
        match send msg with
        | Some err =>
            sendPacketToAlphaNodes_from (S i) nodes queryRest t contacted target
              futures (removeFromRouteSet ++ [asked_Receiver msg]) send
        | None =>
            sendPacketToAlphaNodes_from (S i) nodes queryRest t contacted target
              (futures ++ [msg]) removeFromRouteSet send
        end
  end.

Definition sendPacketToAlphaNodes (routeSet : list Node) (queryRest : bool)
    (t : IterateType) (contacted : gmap (list Z) bool) (target : bytes)
    (futures : list Asked) (removeFromRouteSet : list Node)
    (send : Asked → option error)
  : list Asked * list Node * gmap (list Z) bool :=
  sendPacketToAlphaNodes_from 0 routeSet queryRest t contacted target
    futures removeFromRouteSet send.

(** *** The subnet of the node

    [Subnet] is the field [subnet] of the source's [DHT]. It is carried
    beside the [DHT] record above: a handler that reads or writes it
    takes it as an argument and returns it with its other results, so
    the node after a call is the [DHT] and the [Subnet] returned
    together. *)

Record HighKnownOuterNodesNode := {
  HK_ID : string;
  OuterNodes : Z;
  SelfKnownOuterNodes : Z
}.

Record Subnet := {
  SubnetIDs : gmap string (list string);
  HomeSubnetKey : string;
  PossibleRelayIDs : list string;
  PossibleProxyIDs : list string;
  HighKnownNodes : HighKnownOuterNodesNode
}.

Definition with_SubnetIDs (sub : Subnet) (ids : gmap string (list string)) : Subnet :=
  {| SubnetIDs := ids; HomeSubnetKey := HomeSubnetKey sub;
     PossibleRelayIDs := PossibleRelayIDs sub;
     PossibleProxyIDs := PossibleProxyIDs sub;
     HighKnownNodes := HighKnownNodes sub |}.

Definition with_HighKnownNodes (sub : Subnet) (high : HighKnownOuterNodesNode) : Subnet :=
  {| SubnetIDs := SubnetIDs sub; HomeSubnetKey := HomeSubnetKey sub;
     PossibleRelayIDs := PossibleRelayIDs sub;
     PossibleProxyIDs := PossibleProxyIDs sub;
     HighKnownNodes := high |}.

(** The payloads of the subnet packets. *)
Inductive SubnetData :=
| ResponseObtainIP (IP : string)
| RequestKnownOuterNodes (ID : string) (OuterNodes : Z)
| ResponseKnownOuterNodes (ID : string) (OuterNodes : Z).

Definition handleObtainIPResponse (sub : Subnet) (IP : string) (target : string)
  : Subnet * option error :=
  if bool_decide (IP ≠ "") then
    (with_SubnetIDs sub
       (<[IP := default [] (SubnetIDs sub !! IP) ++ [target]]> (SubnetIDs sub)), None)
  else (sub, Some (New "received empty IP")).

(** The counts are Go [int]s, far from their bounds: they are lengths
    of lists of contacts. The loop ranges over the map; its sum does
    not depend on the order. *)
Definition countOuterNodes (sub : Subnet) : Subnet :=
  if bool_decide (1 < size (SubnetIDs sub))%nat then
    let self :=
      map_fold (λ key nodes self,
                  if bool_decide (key = HomeSubnetKey sub) then self
                  else self + Z.of_nat (length nodes))
               (SelfKnownOuterNodes (HighKnownNodes sub)) (SubnetIDs sub) in
    with_HighKnownNodes sub
      {| HK_ID := HK_ID (HighKnownNodes sub);
         OuterNodes := OuterNodes (HighKnownNodes sub);
         SelfKnownOuterNodes := self |}
  else sub.

(** The response [processKnownOuterNodes] sends; the node itself is not
    changed. *)
Definition processKnownOuterNodes (sub : Subnet) (data : SubnetData) : result SubnetData :=
  match data with
  | RequestKnownOuterNodes dataID dataOuterNodes =>
      let ID := HK_ID (HighKnownNodes sub) in
      let nodes := OuterNodes (HighKnownNodes sub) in
      if bool_decide (dataOuterNodes > nodes)
      then Ok (ResponseKnownOuterNodes dataID dataOuterNodes)
      else Ok (ResponseKnownOuterNodes ID nodes)
  | _ => Panic "interface conversion"
  end.

(** *** Requests to a peer *)

(** The methods of [relay.Proxy] that change the list of proxies. *)
Class ProxyList `{Packages} := {
  AddProxyNode : Proxy → string → Proxy;
  RemoveProxyNode : Proxy → string → Proxy
}.

Section requests.
Context `{ProxyList}.

Definition handleRelayResponse (dht : DHT) (response : State) (targetID : string)
  : DHT * option error :=
  match response with
  | Stopped => (with_proxy dht (RemoveProxyNode (proxy dht) targetID), None)
  | Started => (with_proxy dht (AddProxyNode (proxy dht) targetID), None)
  | NoAuth =>
      (dht, Some (New "unable to execute relay because this node not authenticated"))
  | Unknown => (dht, Some (New "unknown relay command"))
  | Error => (dht, Some (New "relay request error"))
  end.

(** [packet.NewRelayPacket] and [packet.NewAuthPacket] *)
Definition NewRelayPacket (command : CommandType) (origin target : Node) : Packet :=
  {| Sender := origin; Receiver := target; Type_ := TypeRelay;
     RequestID := 0; Data := RequestRelay command |}.

Definition NewAuthPacket (command : CommandType) (origin target : Node) : Packet :=
  {| Sender := origin; Receiver := target; Type_ := TypeAuth;
     RequestID := 0; Data := RequestAuth command |}.

Definition RelayRequest (dht : DHT) (ctx : nat) (command targetID : string)
    (it : Iterated) (co : Await) : result (option error * DHT * list Sent) :=
  '(found, dht) ← FindNode dht ctx targetID it;
  let '(targetNode, exists_, err) := found in
  match err with
  | Some err => Ok (Some err, dht, [])
  | None =>
      if negb exists_
      then Ok (Some (New "target for relay request not found"), dht, [])
      else
        let typedCommand :=
          if bool_decide (command = "start") then Some StartRelay
          else if bool_decide (command = "stop") then Some StopRelay
          else None in
        match typedCommand, targetNode with
        | None, _ => Ok (Some (New "unknown command"), dht, [])
        | Some _, None => Panic "nil pointer dereference"
        | Some typedCommand, Some targetNode =>
            ht ← htFromCtx dht ctx;
            let request := NewRelayPacket typedCommand (Origin ht) targetNode in
            match co with
            | SendFailed err => Ok (Some err, dht, [])
            | ChannelClosed =>
                Ok (Some (New "chanel closed unexpectedly"), dht, [SendRequest request])
            | Answered rsp =>
                match Data rsp with
                | ResponseRelay response =>
                    let '(dht, err) := handleRelayResponse dht response targetID in
                    Ok (err, dht, [SendRequest request])
                | _ => Panic "interface conversion"
                end
            | TimedOut => Ok (Some (New "timeout"), dht, [SendRequest request])
            end
        end
  end.

Definition AuthenticationRequest (dht : DHT) (ctx : nat) (command targetID : string)
    (it : Iterated) (co : Await) : result (option error * DHT * list Sent) :=
  '(found, dht) ← FindNode dht ctx targetID it;
  let '(targetNode, exists_, err) := found in
  match err with
  | Some err => Ok (Some err, dht, [])
  | None =>
      if negb exists_
      then Ok (Some (New "target for auth request not found"), dht, [])
      else
        ht ← htFromCtx dht ctx;
        let origin := Origin ht in
        let authCommand :=
          if bool_decide (command = "begin") then Some BeginAuth
          else if bool_decide (command = "revoke") then Some RevokeAuth
          else None in
        match authCommand, targetNode with
        | None, _ => Ok (Some (New "unknown command"), dht, [])
        | Some _, None => Panic "nil pointer dereference"
        | Some authCommand, Some targetNode =>
            let request := NewAuthPacket authCommand origin targetNode in
            match co with
            | SendFailed err => Ok (Some err, dht, [])
            | ChannelClosed =>
                Ok (Some (New "chanel closed unexpectedly"), dht, [SendRequest request])
            | Answered rsp =>
                match Data rsp with
                | ResponseAuth Success AuthUniqueKey =>
                    let '(a, err) :=
                      handleAuthResponse (auth dht) Success AuthUniqueKey
                        (HashString (ID targetNode)) in
                    Ok (err, with_auth dht a, [SendRequest request])
                | _ => Panic "interface conversion"
                end
            | TimedOut => Ok (Some (New "timeout"), dht, [SendRequest request])
            end
        end
  end.

(** [it1], [co1] belong to the authentication request and [it2], [co2]
    to the relay request, should they be made. *)
Definition handleKnownOuterNodes (dht : DHT) (sub : Subnet) (ctx : nat)
    (response : SubnetData) (targetID : string)
    (it1 : Iterated) (co1 : Await) (it2 : Iterated) (co2 : Await)
  : result (option error * DHT * Subnet * list Sent) :=
  match response with
  | ResponseKnownOuterNodes responseID responseOuterNodes =>
      let high := HighKnownNodes sub in
      let sub :=
        if bool_decide (responseOuterNodes > OuterNodes high)
        then with_HighKnownNodes sub
               {| HK_ID := responseID; OuterNodes := responseOuterNodes;
                  SelfKnownOuterNodes := SelfKnownOuterNodes high |}
        else sub in
      if bool_decide (responseOuterNodes > SelfKnownOuterNodes (HighKnownNodes sub))
         && bool_decide (ProxyNodesCount (proxy dht) = 0)
      then
        '(err, dht, sent1) ← AuthenticationRequest dht ctx "begin" targetID it1 co1;
        match err with
        | Some err => Ok (Some err, dht, sub, sent1)
        | None =>
            '(err, dht, sent2) ← RelayRequest dht ctx "start" targetID it2 co2;
            Ok (err, dht, sub, sent1 ++ sent2)
        end
      else Ok (None, dht, sub, [])
  | _ => Panic "interface conversion"
  end.

End requests.

End host.

(** ** Package bootstrap: bootstrap between discovery nodes *)
Module bootstrap.
Import core.

(** The collaborators of the bootstrapper that are not modelled: the
    node keeper (the active node set, read by node reference and by
    short identifier) and the import of a public key from PEM. *)
Class Keeper := {
  NodeKeeper : Type;
  GetActiveNode : NodeKeeper → bytes → option Node;
  GetActiveNodeByShortID : NodeKeeper → Z → option Node;
  AddActiveNodes : NodeKeeper → list Node → NodeKeeper;
  ImportPublicKeyPEM : bytes → error + bytes
}.

Record NodeStruct := {
  NS_ID : bytes;
  NS_SID : Z;
  NS_Role : StaticRole;
  NS_PK : bytes;
  NS_Address : string;
  NS_Version : string
}.

Record GenesisRequest := {
  LastPulse : Z;
  Discovery : NodeStruct
}.

Section bootstrapper.
Context `{Keeper}.

(** The fields [BootstrapDiscovery] reads and writes. The gate
    [bootstrapLock] is closed by [SetLastPulse] alone, together with
    setting [pulsePersisted]: it is open exactly when the flag is set. *)
Record bootstrapper := {
  keeper : NodeKeeper;
  lastPulse : Z;
  pulsePersisted : bool
}.

(** A Go [(value, error)] pair of which exactly one half is set is a
    sum here. *)
Definition newNode (n : NodeStruct) : error + Node :=
  match ImportPublicKeyPEM (NS_PK n) with
  | inl err => inl (Wrap err "error deserializing node public key")
  | inr pk =>
      inr {| ID := NS_ID n; ShortID := NS_SID n; Role := NS_Role n;
             PublicKey := pk; PhysicalAddress := NS_Address n;
             Version := NS_Version n |}
  end.

Definition SetLastPulse (bc : bootstrapper) (number : Z) : bootstrapper :=
  if negb (pulsePersisted bc)
  then {| keeper := keeper bc; lastPulse := number; pulsePersisted := true |}
  else bc.

Definition forceSetLastPulse (bc : bootstrapper) (number : Z) : bootstrapper :=
  {| keeper := keeper bc; lastPulse := number; pulsePersisted := pulsePersisted bc |}.

Definition GetLastPulse (bc : bootstrapper) : Z := lastPulse bc.

Definition checkActiveNode (bc : bootstrapper) (node : Node) : option error :=
  match GetActiveNode (keeper bc) (ID node) with
  | Some n => Some (New "Node ID collision: %s")
  | None =>
      match GetActiveNodeByShortID (keeper bc) (ShortID node) with
      | Some n => Some (New "Short ID collision: %d")
      | None => None
      end
  end.

Definition calculateLastIgnoredPulse (bc : bootstrapper) (lastPulses : list Z) : Z :=
  foldl (λ maxLastPulse pulse,
           if bool_decide (pulse > maxLastPulse) then pulse else maxLastPulse)
        (GetLastPulse bc) lastPulses.

(** [waitGenesisResults]: the responses that arrive before a timeout,
    in their order; the wait ends at [count] results, at a node that
    does not deserialize, or at the timeout when the responses run
    out. *)
Fixpoint waitGenesisResults (arriving : list GenesisRequest) (count : nat)
    (result_ : list Node) (lastPulses : list Z)
  : list Node * list Z * option error :=
  match arriving with
  | [] => ([], [], Some (New "Genesis bootstrap timeout, successful genesis requests: %d/%d"))
  | res :: arriving =>
      match newNode (Discovery res) with
      | inr discovery =>
          let result_ := result_ ++ [discovery] in
          let lastPulses := lastPulses ++ [LastPulse res] in
          if bool_decide (length result_ = count) then (result_, lastPulses, None)
          else waitGenesisResults arriving count result_ lastPulses
      | inl err =>
          ([], [], Some (Wrap err "Error deserializing node from discovery node"))
      end
  end.

(** What the network does while [BootstrapDiscovery] runs: the answer of
    [RemoveOrigin] on the certificate's discovery nodes, the hosts
    reached by each round of pings, the pulse the pulse handler sets
    while the gate is awaited (if it does), and the genesis responses
    that arrive in time. *)
Record Env := {
  removeOrigin : list string * option error;
  connects : list (list string);
  pulseSet : option Z;
  genesis : list GenesisRequest
}.

(** The loop that pings the discovery nodes until all of them answered
    in one round; [None] when no round ever does. *)
Fixpoint connectAll (discoveryCount : nat) (rounds : list (list string))
  : option (list string) :=
  match rounds with
  | [] => None
  | hosts :: rounds =>
      if bool_decide (length hosts = discoveryCount) then Some hosts
      else connectAll discoveryCount rounds
  end.

(** [<-bc.bootstrapLock] *)
Definition awaitLock (bc : bootstrapper) (set : option Z) : option bootstrapper :=
  if pulsePersisted bc then Some bc
  else match set with
       | Some number => Some (SetLastPulse bc number)
       | None => None
       end.

(** The loop over the received nodes. *)
Fixpoint checkActiveNodes (bc : bootstrapper) (activeNodes : list Node) : option error :=
  match activeNodes with
  | [] => None
  | activeNode :: rest =>
      match checkActiveNode bc activeNode with
      | Some err => Some (Wrap err "Discovery check of node %s failed")
      | None => checkActiveNodes bc rest
      end
  end.

Inductive Outcome :=
| Returned (err : option error) (bc : bootstrapper)
| Blocked.

Definition BootstrapDiscovery (bc : bootstrapper) (env : Env) : Outcome :=
  let '(discoveryNodes, err) := removeOrigin env in
  match err with
  | Some err => Returned (Some (Wrap err "Discovery bootstrap failed")) bc
  | None =>
      let discoveryCount := length discoveryNodes in
      if bool_decide (discoveryCount = 0%nat) then Returned None bc
      else
        match connectAll discoveryCount (connects env) with
        | None => Blocked
        | Some hosts =>
            match awaitLock bc (pulseSet env) with
            | None => Blocked
            | Some bc =>
                let '(activeNodes, lastPulses, err) :=
                  waitGenesisResults (genesis env) (length hosts) [] [] in
                match err with
                | Some err => Returned (Some err) bc
                | None =>
                    let bc := forceSetLastPulse bc
                                (calculateLastIgnoredPulse bc lastPulses) in
                    match checkActiveNodes bc activeNodes with
                    | Some err => Returned (Some err) bc
                    | None =>
                        Returned None
                          {| keeper := AddActiveNodes (keeper bc) activeNodes;
                             lastPulse := lastPulse bc;
                             pulsePersisted := pulsePersisted bc |}
                    end
                end
            end
        end
  end.

End bootstrapper.

(** *** Bootstrapping to one address, with retries *)

(** The fields of [common.Options] that [bootstrap] reads; the timeouts
    are [time.Duration]s. *)
Record Options := {
  InfinityBootstrap : bool;
  MinTimeout : Z;
  MaxTimeout : Z;
  TimeoutMult : Z
}.

(** What a call of [bootstrap] comes to, given what the successive calls
    of [bootstrapF] return: a result after the sleeps listed, or no end
    when the calls are used up. *)
Inductive Attempted :=
| Finished (result_ : error + string) (slept : list Z)
| Unfinished (slept : list Z).

Fixpoint bootstrap_loop (minTO : Z) (options : Options) (calls : list (error + string))
    (slept : list Z) : Attempted :=
  match calls with
  | [] => Unfinished slept
  | inr result_ :: _ => Finished (inr result_) slept
  | inl _ :: calls =>
      let slept := slept ++ [minTO] in
      let minTO := host.wrap64 (minTO * TimeoutMult options) in
      let minTO := if bool_decide (minTO > MaxTimeout options)
                   then MaxTimeout options else minTO in
      bootstrap_loop minTO options calls slept
  end.

Definition bootstrap (options : Options) (calls : list (error + string)) : Attempted :=
  let minTO := MinTimeout options in
  if negb (InfinityBootstrap options) then
    match calls with
    | [] => Unfinished []
    | result_ :: _ => Finished result_ []
    end
  else bootstrap_loop minTO options calls [].

End bootstrap.

(** * Properties *)

(** ** Sorting and byte strings *)

Section sorting_facts.
Context {A : Type} (less : A → A → bool).

Lemma stable_insert_Permutation (x : A) (l : list A) :
  stable_insert less x l ≡ₚ x :: l.
Proof.
  induction l as [|y l IH]; simpl; [done|].
  destruct (less y x); [|done].
  rewrite IH. apply Permutation_swap.
Qed.

Lemma SliceStable_Permutation (l : list A) : SliceStable less l ≡ₚ l.
Proof.
  induction l as [|x l IH]; simpl; [done|].
  rewrite stable_insert_Permutation. by f_equiv.
Qed.

Lemma SliceStable_length (l : list A) : length (SliceStable less l) = length l.
Proof. apply Permutation_length, SliceStable_Permutation. Qed.

End sorting_facts.

Lemma lxor_twice (v s : Z) : Z.lxor (Z.lxor v s) s = v.
Proof. by rewrite Z.lxor_assoc, Z.lxor_nilpotent, Z.lxor_0_r. Qed.

(** ** Role selection *)

Module jet_facts.
Import core jetcoordinator.

(** A world to run the coordinator in: identifiers are their own hash,
    the hasher of the scheme appends the candidate to the entropy. *)
#[local] Instance plain_deps : Deps := {|
  RecordID_Pulse := λ _, 0;
  RecordID_Hash := λ id, id;
  PulseNumberJet := 1;
  JetTree := unit;
  JetTree_Find := λ _ id, id;
  jet_Jet_prefix := λ id, id;
  ReferenceHasher := λ e v, e ++ v
|}.

Definition virtual (id : Z) : Node :=
  {| ID := [id]; ShortID := id; Role := StaticRoleVirtual; PublicKey := [];
     PhysicalAddress := "127.0.0.1:0"; Version := "v" |}.

(** Five active virtual nodes at every pulse; the current pulse is 7. *)
Definition five : JetCoordinator :=
  {| NodeStorage_GetActiveNodesByRole := λ _ role,
       match role with
       | StaticRoleVirtual => Ok (virtual <$> [5; 3; 1; 4; 2])
       | _ => Ok []
       end;
     PulseStorage_Current := Ok {| PulseNumber := 7; Entropy := [9; 9] |};
     PulseTracker_GetPulse := λ _, Err (New "pulse not found");
     JetStorage_GetJetTree := λ _, Ok () |}.

(** One active virtual node. *)
Definition lonely : JetCoordinator :=
  {| NodeStorage_GetActiveNodesByRole := λ _ _, Ok [virtual 1];
     PulseStorage_Current := Ok {| PulseNumber := 7; Entropy := [9; 9] |};
     PulseTracker_GetPulse := λ _, Err (New "pulse not found");
     JetStorage_GetJetTree := λ _, Ok () |}.

Example five_validators :
  VirtualValidatorsForObject five [0] 7 = Ok [[2]; [3]; [4]]
  ∧ VirtualExecutorForObject five [0] 7 = Ok [1].
Proof. split; reflexivity. Qed.

Lemma circleXOR_Ok (value src : bytes) :
  src ≠ [] →
  circleXOR value src
  = Ok (imap (λ i v, Z.lxor v (nth (i mod length src) src 0)) value).
Proof.
  intros Hsrc. unfold circleXOR.
  rewrite bool_decide_eq_false_2; [done|].
  by destruct src.
Qed.

(** C6. For every byte array [value] and every non-empty [src],
    [circleXOR value src] returns an array of the length of [value]
    whose i-th byte is [value[i] XOR src[i mod len(src)]]; consequently
    applying it twice with the same [src] restores [value] whenever
    [len(value) = k * len(src)]. *)
Theorem circleXOR_cycles (value src : bytes) :
  src ≠ [] →
  ∃ out, circleXOR value src = Ok out
    ∧ length out = length value
    ∧ (∀ i v, value !! i = Some v →
         ∃ s, src !! (i mod length src)%nat = Some s
              ∧ out !! i = Some (Z.lxor v s))
    ∧ (∀ k, length value = (k * length src)%nat → circleXOR out src = Ok value).
Proof.
  intros Hsrc. eexists. split; [by apply circleXOR_Ok|].
  assert (Hlen : (0 < length src)%nat) by (destruct src; simpl; [done|lia]).
  split; [apply length_imap|]. split.
  - intros i v Hv.
    destruct (lookup_lt_is_Some_2 src (i mod length src)%nat) as [s Hs].
    { apply Nat.mod_upper_bound. lia. }
    exists s. split; [done|].
    rewrite list_lookup_imap, Hv. simpl.
    by rewrite (nth_lookup_Some _ _ _ _ Hs).
  - intros k _. rewrite circleXOR_Ok by done. f_equal.
    apply list_eq. intros i.
    rewrite !list_lookup_imap.
    destruct (value !! i) as [v|]; simpl; [|done].
    by rewrite lxor_twice.
Qed.

Lemma circleXOR_cycles_witness :
  [1; 2] ≠ [] ∧ ∃ out, circleXOR [5; 6; 7; 8] [1; 2] = Ok out
    ∧ circleXOR out [1; 2] = Ok [5; 6; 7; 8].
Proof.
  assert (Hne : [1; 2] ≠ @nil Z) by discriminate.
  split; [exact Hne|].
  destruct (circleXOR_cycles [5; 6; 7; 8] [1; 2] Hne) as (out & Hout & _ & _ & Hback).
  exists out. split; [exact Hout|]. exact (Hback 2%nat eq_refl).
Defined.

Section selection.
Context `{Deps}.

Lemma getRefs_draw (e : bytes) (values : list Node) (count : nat) (drawn : list bytes) :
  getRefs e values count = Ok drawn →
  ∃ ranked, ranked ≡ₚ ID <$> values
    ∧ (count ≤ length ranked)%nat
    ∧ drawn = take count ranked
    ∧ ∀ n, (n ≤ count)%nat → getRefs e values n = Ok (take n ranked).
Proof.
  unfold getRefs, SelectByEntropy. simpl.
  set (byID := SliceStable _ values).
  set (ranked := SliceStable _ (ID <$> byID)).
  assert (Hlen : length (ID <$> byID) = length ranked)
    by (symmetry; apply SliceStable_length).
  case_bool_decide as Hcount; simpl; [done|].
  intros [= <-]. exists ranked. split_and!.
  - unfold ranked, byID.
    by rewrite !SliceStable_Permutation.
  - lia.
  - done.
  - intros n Hn. rewrite bool_decide_eq_false_2 by lia. done.
Qed.

(** C4, as the code has it. For every object and pulse for which the
    draw of [VirtualExecutorCount + VirtualValidatorCount = 4]
    candidates succeeds, [VirtualValidatorsForObject] returns exactly
    [VirtualValidatorCount = 3] references, the drawn ones after the
    first [VirtualExecutorCount = 1] slot; with active nodes of distinct
    identifiers, [VirtualExecutorForObject] returns that first slot,
    which is not among the validators. *)
Theorem validators_skip_executor (jc : JetCoordinator) (objID : bytes) (pulse : Z)
    (drawn : list bytes) :
  virtualsForObject jc objID pulse (VirtualValidatorCount + VirtualExecutorCount)
    = Ok drawn →
  (∀ candidates,
     NodeStorage_GetActiveNodesByRole jc pulse StaticRoleVirtual = Ok candidates →
     NoDup (ID <$> candidates)) →
  VirtualValidatorsForObject jc objID pulse = Ok (drop VirtualExecutorCount drawn)
  ∧ length (drop VirtualExecutorCount drawn) = VirtualValidatorCount
  ∧ ∃ executor,
      VirtualExecutorForObject jc objID pulse = Ok executor
      ∧ head drawn = Some executor
      ∧ executor ∉ drop VirtualExecutorCount drawn.
Proof.
  intros Hdraw Hdistinct.
  unfold VirtualValidatorsForObject, VirtualExecutorForObject.
  rewrite Hdraw. revert Hdraw. unfold virtualsForObject.
  destruct (NodeStorage_GetActiveNodesByRole jc pulse StaticRoleVirtual)
    as [candidates| |] eqn:Hactive; simpl; [|done..].
  case_bool_decide; [done|].
  destruct (entropy jc pulse) as [ent| |]; simpl; [|done..].
  destruct (circleXOR ent (RecordID_Hash objID)) as [mix| |]; simpl; [|done..].
  intros Hrefs.
  destruct (getRefs_draw _ _ _ _ Hrefs) as (ranked & Hperm & Hlen & -> & Hless).
  rewrite (Hless VirtualExecutorCount) by (unfold VirtualExecutorCount; simpl; lia).
  assert (Hnodup : NoDup (take (VirtualValidatorCount + VirtualExecutorCount) ranked)).
  { assert (NoDup ranked) as Hranked by (rewrite Hperm; by apply Hdistinct).
    exact (sublist_NoDup _ _ Hranked (sublist_take _ _)). }
  unfold VirtualValidatorCount, VirtualExecutorCount in *. simpl in *.
  destruct ranked as [|a [|b [|c [|d rest]]]]; simpl in *; try lia.
  split; [done|]. split; [done|].
  exists a. split; [done|]. split; [done|].
  by apply NoDup_cons in Hnodup as [? _].
Qed.

(** C5. For every role, object, pulse and node for which [QueryRole]
    succeeds, [IsAuthorized] returns true if and only if the node is a
    member of the list [QueryRole] returns; when [QueryRole] fails,
    [IsAuthorized] returns its error. *)
Theorem IsAuthorized_membership (jc : JetCoordinator) (role : DynamicRole)
    (obj : bytes) (pulse : Z) (node : bytes) :
  (∀ nodes, QueryRole jc role obj pulse = Ok nodes →
     ∃ b, IsAuthorized jc role obj pulse node = Ok b ∧ (b = true ↔ node ∈ nodes))
  ∧ (∀ e, QueryRole jc role obj pulse = Err e →
       IsAuthorized jc role obj pulse node = Err e).
Proof.
  unfold IsAuthorized. split.
  - intros nodes ->. simpl. eexists. split; [done|].
    induction nodes as [|n nodes IH]; simpl.
    + split; [done|]. by intros ?%elem_of_nil.
    + rewrite elem_of_cons. case_bool_decide as Hn.
      * split; [by left|done].
      * rewrite IH. split; [by right|]. by intros [->|?].
  - by intros e ->.
Qed.

End selection.

Lemma validators_skip_executor_witness :
  VirtualValidatorsForObject five [0] 7 = Ok [[2]; [3]; [4]]
  ∧ ∃ executor, VirtualExecutorForObject five [0] 7 = Ok executor
      ∧ executor ∉ [[2]; [3]; [4]].
Proof.
  assert (Hdraw : virtualsForObject five [0] 7
                    (VirtualValidatorCount + VirtualExecutorCount)
                  = Ok [[1]; [2]; [3]; [4]]) by reflexivity.
  assert (Hdistinct : ∀ candidates,
            NodeStorage_GetActiveNodesByRole five 7 StaticRoleVirtual = Ok candidates →
            NoDup (ID <$> candidates)).
  { intros candidates [= <-]. simpl. apply NoDup_ListNoDup.
    repeat constructor; simpl; intuition discriminate. }
  destruct (validators_skip_executor five [0] 7 _ Hdraw Hdistinct)
    as (Hval & _ & executor & Hex & _ & Hnot).
  split; [exact Hval|]. exists executor. split; [exact Hex|exact Hnot].
Defined.

(** C4, as the spec has it, fails: active virtual nodes exist at the
    pulse, yet no three validators are returned, once because the
    entropy of the pulse cannot be fetched, once because a single
    candidate does not make four distinct draws. *)
Definition forgetful : JetCoordinator :=
  {| NodeStorage_GetActiveNodesByRole := λ _ _, Ok (virtual <$> [5; 3; 1; 4; 2]);
     PulseStorage_Current := Err (New "no current pulse");
     PulseTracker_GetPulse := λ _, Err (New "pulse not found");
     JetStorage_GetJetTree := λ _, Ok () |}.

Lemma validators_not_always_three :
  (NodeStorage_GetActiveNodesByRole forgetful 7 StaticRoleVirtual
     = Ok (virtual <$> [5; 3; 1; 4; 2])
   ∧ ¬ ∃ refs, VirtualValidatorsForObject forgetful [0] 7 = Ok refs
               ∧ length refs = VirtualValidatorCount)
  ∧ (NodeStorage_GetActiveNodesByRole lonely 7 StaticRoleVirtual = Ok [virtual 1]
     ∧ ¬ ∃ refs, VirtualValidatorsForObject lonely [0] 7 = Ok refs
                 ∧ length refs = VirtualValidatorCount).
Proof.
  split; (split; [reflexivity|]); intros (refs & Hrefs & _); discriminate Hrefs.
Qed.

Lemma IsAuthorized_membership_witness :
  IsAuthorized five DynamicRoleVirtualValidator [0] 7 [3] = Ok true
  ∧ IsAuthorized forgetful DynamicRoleVirtualValidator [0] 7 [3]
    = Err (Wrap (Wrap (New "no current pulse") "failed to get current pulse")
                "failed to fetch entropy for pulse %v").
Proof.
  split.
  - destruct (IsAuthorized_membership five DynamicRoleVirtualValidator [0] 7 [3])
      as [Hok _].
    destruct (Hok [[2]; [3]; [4]] eq_refl) as (b & -> & Hb).
    f_equal. apply Hb. apply list_elem_of_In. simpl. tauto.
  - destruct (IsAuthorized_membership forgetful DynamicRoleVirtualValidator [0] 7 [3])
      as [_ Herr].
    exact (Herr _ eq_refl).
Defined.

(** *** Further properties of role selection *)

Lemma bytes_Compare_refl (a : bytes) : bytes_Compare a a = Eq.
Proof. induction a as [|x a IH]; simpl; [done|]. by rewrite Z.compare_refl. Qed.

Lemma bytes_Compare_Eq (a b : bytes) : bytes_Compare a b = Eq → a = b.
Proof.
  revert b. induction a as [|x a IH]; intros [|y b]; simpl; try done.
  destruct (Z.compare_spec x y) as [->| |]; try done.
  by intros ->%IH.
Qed.

Lemma bytes_Compare_antisym (a b : bytes) :
  bytes_Compare b a = CompOpp (bytes_Compare a b).
Proof.
  revert b. induction a as [|x a IH]; intros [|y b]; simpl; try done.
  rewrite (Z.compare_antisym x y).
  destruct (x ?= y); simpl; [apply IH|done..].
Qed.

Lemma bytes_Compare_trans (a b c : bytes) :
  bytes_Compare a b ≠ Gt → bytes_Compare b c ≠ Gt → bytes_Compare a c ≠ Gt.
Proof.
  revert b c. induction a as [|x a IH]; intros [|y b] [|z c]; simpl; try done.
  destruct (Z.compare_spec x y), (Z.compare_spec y z), (Z.compare_spec x z);
    try done; try lia.
  apply IH.
Qed.

(** [a] does not come after [b]. *)
Definition not_after (a b : bytes) : Prop := bytes_less b a = false.

Lemma not_after_Compare (a b : bytes) : not_after a b ↔ bytes_Compare a b ≠ Gt.
Proof.
  unfold not_after, bytes_less. rewrite (bytes_Compare_antisym a b).
  destruct (bytes_Compare a b); simpl; naive_solver.
Qed.

Lemma not_after_trans (a b c : bytes) : not_after a b → not_after b c → not_after a c.
Proof. rewrite !not_after_Compare. apply bytes_Compare_trans. Qed.

Lemma not_after_antisym (a b : bytes) : not_after a b → not_after b a → a = b.
Proof.
  rewrite !not_after_Compare, (bytes_Compare_antisym a b).
  destruct (bytes_Compare a b) eqn:Hab; simpl; try done.
  intros _ _. by apply bytes_Compare_Eq.
Qed.

Lemma bytes_less_asym (a b : bytes) : bytes_less a b = true → bytes_less b a = false.
Proof.
  unfold bytes_less. rewrite (bytes_Compare_antisym a b).
  by destruct (bytes_Compare a b).
Qed.

Section sorted_by_key.
Context {A : Type} (key : A → bytes).

Definition by_key (x y : A) : bool := bytes_less (key x) (key y).
Definition key_order (x y : A) : Prop := not_after (key x) (key y).

Lemma stable_insert_sorted (x : A) (l : list A) :
  StronglySorted key_order l → StronglySorted key_order (stable_insert by_key x l).
Proof.
  induction 1 as [|y l Hl IH Hy]; simpl; [repeat constructor|].
  destruct (by_key y x) eqn:Hyx.
  - constructor; [done|].
    rewrite stable_insert_Permutation. constructor; [|done].
    by apply bytes_less_asym.
  - constructor; [by constructor|]. constructor; [done|].
    eapply Forall_impl; [done|]. intros z Hz.
    by eapply not_after_trans.
Qed.

Lemma SliceStable_sorted (l : list A) : StronglySorted key_order (SliceStable by_key l).
Proof.
  induction l as [|x l IH]; simpl; [constructor|]. by apply stable_insert_sorted.
Qed.

(** Sorting by distinct keys forgets the order of the input. *)
Lemma SliceStable_order_free (l1 l2 : list A) :
  l1 ≡ₚ l2 → NoDup (key <$> l1) → SliceStable by_key l1 = SliceStable by_key l2.
Proof.
  intros Hperm Hdistinct.
  apply (StronglySorted_unique_strong key_order); try apply SliceStable_sorted.
  - intros x1 x2 Hx1 Hx2 H12 H21.
    rewrite SliceStable_Permutation in Hx1.
    rewrite SliceStable_Permutation, <-Hperm in Hx2.
    assert (Hkey : key x1 = key x2) by (by apply not_after_antisym).
    apply list_elem_of_lookup in Hx1 as [i Hi], Hx2 as [j Hj].
    assert (i = j) as ->; [|congruence].
    eapply NoDup_lookup; [done| |].
    + by rewrite list_lookup_fmap, Hi.
    + by rewrite list_lookup_fmap, Hj, Hkey.
  - by rewrite !SliceStable_Permutation.
Qed.

End sorted_by_key.

Section more_selection.
Context `{Deps}.

(** X1. The references [getRefs] draws do not depend on the order in
    which the candidates are listed, as long as their identifiers are
    distinct: the candidates are sorted by identifier first. *)
Theorem getRefs_order_free (e : bytes) (values1 values2 : list Node) (count : nat) :
  values1 ≡ₚ values2 →
  NoDup (ID <$> values1) →
  getRefs e values1 count = getRefs e values2 count.
Proof.
  intros Hperm Hdistinct. unfold getRefs.
  pose proof (SliceStable_order_free ID values1 values2 Hperm Hdistinct) as Hsorted.
  unfold by_key in Hsorted. by rewrite Hsorted.
Qed.

(** Two coordinators that differ at most in the order their node storage
    lists the active nodes of a pulse. *)
Definition same_nodes_reordered (jc1 jc2 : JetCoordinator) (pulse : Z) : Prop :=
  PulseStorage_Current jc1 = PulseStorage_Current jc2
  ∧ PulseTracker_GetPulse jc1 = PulseTracker_GetPulse jc2
  ∧ JetStorage_GetJetTree jc1 = JetStorage_GetJetTree jc2
  ∧ ∀ role,
      match NodeStorage_GetActiveNodesByRole jc1 pulse role,
            NodeStorage_GetActiveNodesByRole jc2 pulse role with
      | Ok l1, Ok l2 => l1 ≡ₚ l2 ∧ NoDup (ID <$> l1)
      | Err e1, Err e2 => e1 = e2
      | Panic m1, Panic m2 => m1 = m2
      | _, _ => False
      end.

Lemma entropy_same (jc1 jc2 : JetCoordinator) (pulse : Z) :
  same_nodes_reordered jc1 jc2 pulse → entropy jc1 pulse = entropy jc2 pulse.
Proof. intros (Hc & Ht & _). unfold entropy. by rewrite Hc, Ht. Qed.

(** The three draws share their shape; [salt] is the salt of the draw,
    if it has one. *)
Lemma draw_same {B} (jc1 jc2 : JetCoordinator) (pulse : Z) (role : StaticRole)
    (fetch none : string) (draw : bytes → list Node → result B) :
  same_nodes_reordered jc1 jc2 pulse →
  (∀ ent l1 l2, l1 ≡ₚ l2 → NoDup (ID <$> l1) → draw ent l1 = draw ent l2) →
  (candidates ← wrapf (NodeStorage_GetActiveNodesByRole jc1 pulse role) fetch;
   if bool_decide (length candidates = 0%nat) then Err (New none)
   else ent ← wrapf (entropy jc1 pulse) "failed to fetch entropy for pulse %v";
        draw ent candidates)
  = (candidates ← wrapf (NodeStorage_GetActiveNodesByRole jc2 pulse role) fetch;
     if bool_decide (length candidates = 0%nat) then Err (New none)
     else ent ← wrapf (entropy jc2 pulse) "failed to fetch entropy for pulse %v";
          draw ent candidates).
Proof.
  intros Hsame Hdraw. rewrite (entropy_same jc1 jc2 pulse Hsame).
  destruct Hsame as (_ & _ & _ & Hnodes). specialize (Hnodes role).
  destruct (NodeStorage_GetActiveNodesByRole jc1 pulse role) as [l1|e1|m1],
    (NodeStorage_GetActiveNodesByRole jc2 pulse role) as [l2|e2|m2];
    simpl; try done; try congruence.
  destruct Hnodes as [Hperm Hdistinct].
  rewrite (Permutation_length Hperm).
  case_bool_decide; [done|].
  destruct (wrapf (entropy jc2 pulse) _) as [ent| |]; simpl; [|done..].
  by apply Hdraw.
Qed.

(** X2. [QueryRole] does not depend on the order in which the node
    storage lists the active nodes: two coordinators with the same
    pulses and jet trees, whose active nodes of every role are the same
    up to their order and have distinct identifiers, answer every query
    for that pulse alike. *)
Theorem QueryRole_order_free (jc1 jc2 : JetCoordinator) (role : DynamicRole)
    (objID : bytes) (pulse : Z) :
  same_nodes_reordered jc1 jc2 pulse →
  QueryRole jc1 role objID pulse = QueryRole jc2 role objID pulse.
Proof.
  intros Hsame.
  assert (Hrefs : ∀ e l1 l2 count,
    l1 ≡ₚ l2 → NoDup (ID <$> l1) → getRefs e l1 count = getRefs e l2 count).
  { intros e l1 l2 count Hperm Hdistinct. unfold getRefs.
    pose proof (SliceStable_order_free ID l1 l2 Hperm Hdistinct) as Hsorted.
    unfold by_key in Hsorted. by rewrite Hsorted. }
  assert (Hvirtual : ∀ count,
    virtualsForObject jc1 objID pulse count = virtualsForObject jc2 objID pulse count).
  { intros count. unfold virtualsForObject.
    apply (draw_same jc1 jc2 pulse _ _ _
             (λ ent l, mix ← circleXOR ent (RecordID_Hash objID); getRefs mix l count));
      [done|].
    intros ent l1 l2 Hperm Hdistinct.
    destruct (circleXOR ent _); simpl; [|done..]. by apply Hrefs. }
  assert (Hlight : ∀ jetID count,
    lightMaterialsForJet jc1 jetID pulse count
    = lightMaterialsForJet jc2 jetID pulse count).
  { intros jetID count. unfold lightMaterialsForJet.
    apply (draw_same jc1 jc2 pulse _ _ _
             (λ ent l, mix ← circleXOR ent (jet_Jet_prefix jetID); getRefs mix l count));
      [done|].
    intros ent l1 l2 Hperm Hdistinct.
    destruct (circleXOR ent _); simpl; [|done..]. by apply Hrefs. }
  assert (Hheavy : Heavy jc1 pulse = Heavy jc2 pulse).
  { unfold Heavy.
    apply (draw_same jc1 jc2 pulse _ _ _ (λ ent l, first_ref (getRefs ent l 1)));
      [done|].
    intros ent l1 l2 Hperm Hdistinct. f_equal. by apply Hrefs. }
  destruct Hsame as (_ & _ & Htree & _).
  destruct role; simpl; try done.
  - unfold VirtualExecutorForObject. by rewrite Hvirtual.
  - unfold VirtualValidatorsForObject. by rewrite Hvirtual.
  - unfold LightExecutorForObject, LightExecutorForJet. rewrite Htree.
    case_bool_decide; [by rewrite Hlight|].
    destruct (wrapf (JetStorage_GetJetTree jc2 pulse) _); simpl; [|done..].
    by rewrite Hlight.
  - unfold LightValidatorsForObject, LightValidatorsForJet. rewrite Htree.
    destruct (wrapf (JetStorage_GetJetTree jc2 pulse) _); simpl; [|done..].
    by rewrite Hlight.
  - by rewrite Hheavy.
Qed.

End more_selection.

(** The five virtual nodes of [five], listed in another order. *)
Definition shuffled : JetCoordinator :=
  {| NodeStorage_GetActiveNodesByRole := λ _ role,
       match role with
       | StaticRoleVirtual => Ok (virtual <$> [1; 2; 3; 4; 5])
       | _ => Ok []
       end;
     PulseStorage_Current := Ok {| PulseNumber := 7; Entropy := [9; 9] |};
     PulseTracker_GetPulse := λ _, Err (New "pulse not found");
     JetStorage_GetJetTree := λ _, Ok () |}.

Lemma virtual_shuffled :
  virtual <$> [5; 3; 1; 4; 2] ≡ₚ virtual <$> [1; 2; 3; 4; 5].
Proof.
  simpl. apply NoDup_Permutation.
  - apply NoDup_ListNoDup. repeat constructor; simpl; intuition discriminate.
  - apply NoDup_ListNoDup. repeat constructor; simpl; intuition discriminate.
  - intros x. rewrite !elem_of_cons, !elem_of_nil. tauto.
Defined.

Lemma virtual_distinct : NoDup (ID <$> (virtual <$> [5; 3; 1; 4; 2])).
Proof.
  apply NoDup_ListNoDup. repeat constructor; simpl; intuition discriminate.
Defined.

Lemma getRefs_order_free_witness :
  getRefs [9; 9] (virtual <$> [5; 3; 1; 4; 2]) 3
  = getRefs [9; 9] (virtual <$> [1; 2; 3; 4; 5]) 3.
Proof.
  exact (getRefs_order_free [9; 9] _ _ 3 virtual_shuffled virtual_distinct).
Defined.

Lemma QueryRole_order_free_witness :
  QueryRole five DynamicRoleVirtualValidator [0] 7
  = QueryRole shuffled DynamicRoleVirtualValidator [0] 7.
Proof.
  apply QueryRole_order_free. split_and!; try reflexivity.
  intros []; simpl; try (split; [done|constructor]).
  split; [exact virtual_shuffled|exact virtual_distinct].
Defined.

End jet_facts.

(** ** The DHT engine *)

Module host_facts.
Import host.

(** Plain implementations of the packages, to run the engine on: base58
    is the character codes, every table has its contacts in bucket 0,
    every contact of a bucket counts as closer, the store is a finite
    map, the relay a list of clients, the proxy a list of addresses. *)
Definition bucket_of (ht : HashTable) (i : nat) : list Node :=
  default [] (RoutingTable ht !! i).

#[local] Instance plain_packages : Packages := {|
  base58_Decode := λ s, (λ c, Z.of_nat (Ascii.nat_of_ascii c)) <$> String.list_ascii_of_string s;
  base58_Encode := λ b,
    String.string_of_list_ascii ((λ z, Ascii.ascii_of_nat (Z.to_nat z)) <$> b);
  GetBucketIndexFromDifferingBit := λ _ _, 0%nat;
  DoesNodeExistInBucket := λ ht i id, bool_decide (id ∈ ID <$> bucket_of ht i);
  MarkNodeAsSeen := λ ht id,
    {| Origin := Origin ht;
       RoutingTable := (λ b, filter (λ n, ID n ≠ id) b ++ filter (λ n, ID n = id) b)
                         <$> RoutingTable ht |};
  GetTotalNodesInBucket := λ ht i, length (bucket_of ht i);
  GetAllNodesInBucketCloserThan := λ ht i _, bucket_of ht i;
  GetClosestContacts := λ ht n _ _, take (Z.to_nat n) (concat (RoutingTable ht));
  Store := gmap (list Z) (list Z);
  store_Retrieve := λ st key,
    match st !! key with Some v => (Some v, true) | None => (None, false) end;
  Relay := list Node;
  relay_AddClient := λ r n,
    if bool_decide (n ∈ r) then (r, Some (New "client exists already"))
    else (r ++ [n], None);
  relay_RemoveClient := λ r n,
    if bool_decide (n ∈ r) then (filter (λ m, m ≠ n) r, None)
    else (r, Some (New "client not found"));
  Proxy := list string;
  ProxyNodesCount := λ p, Z.of_nat (length p);
  GetNextProxyAddress := λ p, (default "" (head p), drop 1 p ++ take 1 p)
|}.

Definition contact (n : Z) : Node :=
  {| ID := [n]; Address := "10.0.0.1:7900" |}.

Definition me : Node := {| ID := [0]; Address := "10.0.0.0:7900" |}.

(** The defaults of [NewDHT]. *)
Definition defaults : Options :=
  {| ExpirationTime := Second * 86410; RefreshTime := Second * 3600;
     ReplicateTime := Second * 3600; RepublishTime := Second * 86400;
     PingTimeout := Second * 1; PacketTimeout := Second * 10 |}.

(** A node whose only bucket holds the given contacts; [peers] are the
    nodes it has authenticated. *)
Definition node_with (contacts : list Node) (peers : list string) : DHT :=
  {| tables := [ {| Origin := me; RoutingTable := [contacts] |} ];
     options := defaults;
     store := (∅ : gmap (list Z) (list Z));
     relay := ([] : list Node);
     proxy := ([] : list string);
     auth := {| SentKeys := ∅; ReceivedKeys := ∅;
                authenticatedNodes := list_to_map ((λ p, (p, true)) <$> peers) |} |}.

Definition twenty : list Node := contact <$> seqZ 1 20.

Definition nothing_found : Iterated :=
  {| it_value := None; it_closest := []; it_err := None; it_tables := [] |}.

Section engine_facts.
Context `{Packages}.

(** C9. For every key whose base58 decoding is not exactly 20 bytes
    ([MaxContactsInBucket]) long, [Get] and [FindNode] return the
    "invalid key" error with a false, absent result, and leave the node
    (its content store and routing tables among the rest) as it was. *)
Theorem invalid_key_rejected (dht : DHT) (ctx : nat) (key : string) (it : Iterated) :
  Z.of_nat (length (base58_Decode key)) ≠ 20 →
  Get dht ctx key it = Ok ((None, false, Some (New "invalid key")), dht)
  ∧ FindNode dht ctx key it = Ok ((None, false, Some (New "invalid key")), dht).
Proof.
  intros Hlen. unfold Get, FindNode, MaxContactsInBucket.
  by rewrite !bool_decide_eq_true_2.
Qed.

(** C3. For every incoming relay packet whose sender is not marked true
    in [authenticatedNodes], [processRelay] answers with the state
    [NoAuth] and leaves the node, its relay clients included, as it was;
    the relay changes only on behalf of an authenticated sender. *)
Theorem processRelay_requires_auth (dht : DHT) (ctx : nat) (msg packetBuilder : Packet)
    (ping : Await) :
  (authenticated (auth dht) (HashString (ID (Sender msg))) = false →
   processRelay dht ctx msg packetBuilder ping
   = Ok (dht, [SendResponse (RequestID msg)
                  (Response packetBuilder (ResponseRelay NoAuth))]))
  ∧ (∀ dht' sent,
       processRelay dht ctx msg packetBuilder ping = Ok (dht', sent) →
       relay dht' ≠ relay dht →
       authenticated (auth dht) (HashString (ID (Sender msg))) = true).
Proof.
  assert (Hno : authenticated (auth dht) (HashString (ID (Sender msg))) = false →
    processRelay dht ctx msg packetBuilder ping
    = Ok (dht, [SendResponse (RequestID msg)
                  (Response packetBuilder (ResponseRelay NoAuth))])).
  { intros Hauth. unfold processRelay. by rewrite Hauth. }
  split; [exact Hno|].
  intros dht' sent Hrun Hrelay.
  destruct (authenticated (auth dht) (HashString (ID (Sender msg)))) eqn:Hauth; [done|].
  rewrite Hno in Hrun by done. by injection Hrun as <- _.
Qed.

(** *** Insertion into a full bucket *)

Lemma addNode_tables (dht : DHT) (ctx : nat) (ht : HashTable) (t : HashTable) :
  htFromCtx dht ctx = Ok ht →
  tables (with_tables dht (<[ctx := t]> (tables dht))) !! ctx = Some t.
Proof.
  unfold htFromCtx. intros Hht. simpl.
  destruct (tables dht !! ctx) eqn:Hctx; [|done].
  apply list_lookup_insert_eq. by eapply lookup_lt_Some.
Qed.


End engine_facts.

Lemma invalid_key_rejected_witness :
  Get (node_with [] []) 0 "abc" nothing_found
  = Ok ((None, false, Some (New "invalid key")), node_with [] []).
Proof.
  assert (Hlen : Z.of_nat (length (base58_Decode "abc")) ≠ 20) by (simpl; lia).
  exact (proj1 (invalid_key_rejected (node_with [] []) 0 "abc" nothing_found Hlen)).
Defined.

Definition relay_start (from : Node) : Packet :=
  {| Sender := from; Receiver := me; Type_ := TypeRelay; RequestID := 42;
     Data := RequestRelay StartRelay |}.

Lemma processRelay_requires_auth_witness :
  processRelay (node_with [] []) 0 (relay_start (contact 3))
    (newBuilder {| Origin := me; RoutingTable := [[]] |} (relay_start (contact 3)))
    TimedOut
  = Ok (node_with [] [],
        [SendResponse 42
           {| Sender := me; Receiver := contact 3; Type_ := TypeRelay; RequestID := 0;
              Data := ResponseRelay NoAuth |}]).
Proof.
  exact (proj1 (processRelay_requires_auth (node_with [] []) 0 (relay_start (contact 3))
    (newBuilder {| Origin := me; RoutingTable := [[]] |} (relay_start (contact 3)))
    TimedOut) eq_refl).
Defined.


(** *** Adaptive expiration *)

Lemma math_Exp_int64_mono (a b : Z) :
  0 ≤ a ≤ b → b ≤ 20 → math_Exp_int64 a ≤ math_Exp_int64 b.
Proof.
  intros Hab Hb.
  assert (Hall : forallb (λ n, forallb (λ m,
            implb (n <=? m)%nat
                  (math_Exp_int64 (Z.of_nat n) <=? math_Exp_int64 (Z.of_nat m)))
            (seq 0 21)) (seq 0 21) = true) by (vm_compute; reflexivity).
  rewrite forallb_forall in Hall.
  specialize (Hall (Z.to_nat a)). rewrite forallb_forall in Hall.
  specialize (Hall ltac:(apply in_seq; lia) (Z.to_nat b) ltac:(apply in_seq; lia)).
  rewrite !Z2Nat.id in Hall by lia.
  destruct (Nat.leb_spec (Z.to_nat a) (Z.to_nat b)); [|lia].
  simpl in Hall. lia.
Qed.

Lemma quotient_bounds (s : Z) :
  1 ≤ s ≤ MaxContactsInBucket →
  MaxContactsInBucket `quot` s = MaxContactsInBucket `div` s
  ∧ 1 ≤ MaxContactsInBucket `div` s ≤ 20.
Proof.
  unfold MaxContactsInBucket. intros Hs.
  rewrite Z.quot_div_nonneg by lia. split; [done|]. split.
  - apply Z.div_le_lower_bound; lia.
  - apply Z.div_le_upper_bound; lia.
Qed.

Section expiration_facts.
Context `{Packages}.

Lemma score_of_nonneg (ht : HashTable) (key : bytes) : 0 ≤ score_of ht key.
Proof.
  unfold score_of.
  assert (Hsum : ∀ l acc, 0 ≤ acc →
    0 ≤ foldl (λ total i, total + Z.of_nat (GetTotalNodesInBucket ht i)) acc l).
  { induction l as [|i l IH]; intros acc Hacc; simpl; [done|]. apply IH. lia. }
  specialize (Hsum (seq 0 (GetBucketIndexFromDifferingBit key (ID (Origin ht)))) 0).
  lia.
Qed.

(** What [getExpirationTime] returns, by the score of the key (the
    contacts of the buckets below the key's bucket and the closer
    contacts of that bucket, a score of 0 counting as 1). Above K
    ([MaxContactsInBucket] = 20) it is exactly now + [ExpirationTime].
    Up to K, the score K included, the nanoseconds of [ExpirationTime]
    are multiplied by the integer factor [int64(exp(K / score))], which
    is at least 2 and does not grow with the score, and that product,
    taken for a number of seconds, is multiplied by [time.Second] again,
    each product wrapping around [int64]; when nothing wraps the
    duration is 10^9 times [ExpirationTime] times the factor. *)
Lemma getExpirationTime_by_score (dht : DHT) (ctx : nat) (ht : HashTable)
    (key : bytes) (now : Z) :
  htFromCtx dht ctx = Ok ht →
  ∃ score,
    score = (if bool_decide (score_of ht key = 0) then 1 else score_of ht key)
    ∧ 1 ≤ score
    ∧ (score > MaxContactsInBucket →
       getExpirationTime dht ctx key now = Ok (now + ExpirationTime (options dht)))
    ∧ (score ≤ MaxContactsInBucket →
       let factor := math_Exp_int64 (MaxContactsInBucket `quot` score) in
       getExpirationTime dht ctx key now
       = Ok (now + wrap64 (Second * wrap64 (ExpirationTime (options dht) * factor)))
       ∧ 2 ≤ factor
       ∧ (- 2 ^ 63 ≤ Second * (ExpirationTime (options dht) * factor) < 2 ^ 63 →
          getExpirationTime dht ctx key now
          = Ok (now + Second * (ExpirationTime (options dht) * factor))))
    ∧ (∀ s, score ≤ s ≤ MaxContactsInBucket →
         math_Exp_int64 (MaxContactsInBucket `quot` s)
         ≤ math_Exp_int64 (MaxContactsInBucket `quot` score)).
Proof.
  intros Hht. eexists. split; [reflexivity|].
  pose proof (score_of_nonneg ht key) as Hpos.
  set (score := if bool_decide _ then 1 else score_of ht key).
  assert (Hscore : 1 ≤ score) by (unfold score; case_bool_decide; lia).
  split; [done|]. unfold getExpirationTime. rewrite Hht. simpl. fold score.
  split_and!.
  - intros Hgt. by rewrite bool_decide_eq_true_2.
  - intros Hle. rewrite bool_decide_eq_false_2 by lia. split; [done|].
    assert (Hfactor : 2 ≤ math_Exp_int64 (MaxContactsInBucket `quot` score)).
    { destruct (quotient_bounds score) as [-> Hq]; [lia|].
      change 2 with (math_Exp_int64 1). apply math_Exp_int64_mono; lia. }
    split; [done|]. intros Hfits. unfold lengthened.
    set (factor := math_Exp_int64 _) in *.
    assert (Hinner : wrap64 (ExpirationTime (options dht) * factor)
                     = ExpirationTime (options dht) * factor).
    { unfold wrap64, Second in *. rewrite Z.mod_small; lia. }
    rewrite Hinner. unfold wrap64. by rewrite Z.mod_small, Z.add_simpl_r by lia.
  - intros s Hs.
    destruct (quotient_bounds score) as [-> Hq]; [lia|].
    destruct (quotient_bounds s) as [-> Hqs]; [lia|].
    apply math_Exp_int64_mono; [|lia].
    split; [lia|]. apply Z.div_le_compat_l; unfold MaxContactsInBucket; lia.
Qed.

End expiration_facts.

Lemma getExpirationTime_by_score_witness :
  getExpirationTime (node_with (contact <$> seqZ 1 25) []) 0 [7] 1000
  = Ok (1000 + Second * 86410).
Proof.
  destruct (getExpirationTime_by_score (node_with (contact <$> seqZ 1 25) []) 0
              {| Origin := me; RoutingTable := [contact <$> seqZ 1 25] |} [7] 1000
              eq_refl)
    as (score & -> & _ & Hbase & _).
  apply Hbase. vm_compute. reflexivity.
Defined.

(** C1 fails on the code. With the options of [NewDHT]
    ([ExpirationTime] = 86410 s) and 20 contacts closer to the key, the
    score is K and the lengthening branch runs, with factor
    [int64(e^1)] = 2. The nanoseconds of [ExpirationTime] times 2 are
    taken for seconds and multiplied by [time.Second]: the product is
    beyond [int64], wraps around, and the expiration returned lies
    before [now]. It is neither now + [ExpirationTime], which the claim
    gives for a score of K or more, nor now + 2 * [ExpirationTime]. The
    same happens below K: with 5 closer contacts the factor is
    [int64(e^4)] = 54 and the expiration returned lies before [now]
    as well, where the claim gives a lengthened one. *)
Theorem expiration_at_score_K :
  score_of {| Origin := me; RoutingTable := [twenty] |} [7] = MaxContactsInBucket
  ∧ ExpirationTime (options (node_with twenty [])) = Second * 86410
  ∧ math_Exp_int64 (MaxContactsInBucket `quot` 20) = 2
  ∧ 2 ^ 63 ≤ Second * (ExpirationTime (options (node_with twenty [])) * 2)
  ∧ getExpirationTime (node_with twenty []) 0 [7] 1000
    = Ok (1000 + wrap64 (Second * (ExpirationTime (options (node_with twenty [])) * 2)))
  ∧ getExpirationTime (node_with twenty []) 0 [7] 1000
    = Ok (1000 + -7545226584789090304)
  ∧ getExpirationTime (node_with twenty []) 0 [7] 1000
    ≠ Ok (1000 + ExpirationTime (options (node_with twenty [])))
  ∧ getExpirationTime (node_with twenty []) 0 [7] 1000
    ≠ Ok (1000 + 2 * ExpirationTime (options (node_with twenty [])))
  ∧ score_of {| Origin := me; RoutingTable := [contact <$> seqZ 1 5] |} [7] = 5
  ∧ math_Exp_int64 (MaxContactsInBucket `quot` 5) = 54
  ∧ getExpirationTime (node_with (contact <$> seqZ 1 5) []) 0 [7] 1000
    = Ok (1000 + -806932978500370432).
Proof.
  split_and!; try (vm_compute; reflexivity); vm_compute; discriminate.
Qed.

(** *** Authentication requests *)

Section authentication_facts.
Context `{Packages}.

Lemma FindNode_auth (dht dht' : DHT) (ctx : nat) (key : string) (it : Iterated)
    (found : option Node * bool * option error) :
  FindNode dht ctx key it = Ok (found, dht') → auth dht' = auth dht.
Proof.
  unfold FindNode. case_bool_decide; [by intros [= _ <-]|].
  destruct (htFromCtx dht ctx) as [ht| |]; simpl; [|done..].
  destruct (bytes_Equal _ _); [by intros [= _ <-]|].
  destruct (match GetClosestContacts ht 1 _ [] with [] => _ | _ => _ end);
    [by intros [= _ <-]|].
  case_bool_decide.
  - destruct (GetNextProxyAddress (proxy dht)). by intros [= _ <-].
  - destruct (it_err it); by intros [= _ <-].
Qed.

Lemma CheckOriginRequest_auth (dht dht' : DHT) (ctx : nat) (targetID : string)
    (it : Iterated) (co : Await) (err : option error) (sent : list Sent) :
  CheckOriginRequest dht ctx targetID it co = Ok (err, dht', sent) →
  auth dht' = auth dht
  ∨ ∃ key, auth dht' = handleCheckOriginResponse (auth dht) key targetID.
Proof.
  unfold CheckOriginRequest.
  destruct (FindNode dht ctx targetID it) as [[[[target exists_] e] dht1]| |] eqn:Hfind;
    simpl; [|done..].
  apply FindNode_auth in Hfind as <-.
  destruct e; [intros [= _ <- _]; by left|].
  destruct exists_; simpl; [|intros [= _ <- _]; by left].
  destruct target; [|done].
  destruct (htFromCtx dht1 ctx); simpl; [|done..].
  destruct co as [?|rsp| |]; try (intros [= _ <- _]; by left).
  destruct (Data rsp); try done.
  intros [= _ <- _]. right. by eexists.
Qed.



(** The steps of the handshake are the handlers of the engine: the
    [AuthInfo] that [processAuthentication] leaves is the one of
    [beginAuth] or [revokeAuth], after the echo when the origin check
    was answered within the call; and [processCheckOriginRequest]
    answers with the key [handle] answers with. *)
Lemma processAuthentication_steps (dht dht' : DHT) (ctx : nat) (msg packetBuilder : Packet)
    (source : bytes) (it : Iterated) (co : Await) (sent : list Sent) (self : string) :
  let sender := HashString (ID (Sender msg)) in
  processAuthentication dht ctx msg packetBuilder source it co = Ok (dht', sent) →
  match Data msg with
  | RequestAuth BeginAuth =>
      let a := (beginAuth (auth dht) self sender source).1 in
      auth dht' = a ∨ ∃ key, auth dht' = handleCheckOriginResponse a key sender
  | RequestAuth RevokeAuth => auth dht' = (revokeAuth (auth dht) self sender).1
  | _ => auth dht' = auth dht
  end.
Proof.
  intros sender. unfold processAuthentication. fold sender.
  destruct (Data msg) as [| | | | |command| | |]; try done.
  destruct command; try (by intros [= <- _]).
  unfold beginAuth.
  destruct (authenticated (auth dht) sender); [intros [= <- _]; by left|].
  destruct (rand_Read source 512); [|intros [= <- _]; by left].
  destruct (CheckOriginRequest _ ctx sender it co) as [[[e dht1] sent1]| |] eqn:Hcheck;
    simpl; [|done..].
  intros [= <- _]. by apply CheckOriginRequest_auth in Hcheck.
Qed.

Lemma processCheckOriginRequest_steps (dht : DHT) (msg packetBuilder : Packet)
    (self : string) :
  let sender := HashString (ID (Sender msg)) in
  match (handle (auth dht) (CheckOrigin sender self)).2 with
  | [CheckOriginResponse _ _ key] =>
      processCheckOriginRequest dht msg packetBuilder
      = [SendResponse (RequestID msg) (Response packetBuilder (ResponseCheckOrigin key))]
  | _ => processCheckOriginRequest dht msg packetBuilder = []
  end.
Proof.
  simpl. unfold processCheckOriginRequest.
  by destruct (ReceivedKeys (auth dht) !! HashString (ID (Sender msg))).
Qed.

End authentication_facts.

Definition auth_begin (from : Node) : Packet :=
  {| Sender := from; Receiver := me; Type_ := TypeAuth; RequestID := 43;
     Data := RequestAuth BeginAuth |}.

(** A peer with a 20-byte identifier, known to the routing table, that
    echoes the key it was sent: the request leaves it authenticated and
    the key it was issued consumed. *)
Definition peer : Node := {| ID := replicate 20 65; Address := "10.0.0.3:7900" |}.

Definition echo (key : bytes) : Packet :=
  {| Sender := peer; Receiver := me; Type_ := TypeCheckOrigin; RequestID := 0;
     Data := ResponseCheckOrigin key |}.

Example processAuthentication_echoed :
  ∃ dht' sent,
    processAuthentication (node_with [peer] []) 0 (auth_begin peer)
      (newBuilder {| Origin := me; RoutingTable := [[peer]] |} (auth_begin peer))
      (replicate 512 7) nothing_found (Answered (echo (replicate 512 7)))
    = Ok (dht', sent)
    ∧ authenticated (auth dht') (HashString (ID peer)) = true
    ∧ SentKeys (auth dht') !! HashString (ID peer) = None
    ∧ length sent = 2%nat.
Proof. eexists _, _. split; [reflexivity|]. by vm_compute. Qed.


(** *** The handshake *)

(** The key [a] holds for [b], read as Go reads the map. *)
Definition recvKey (a : AuthInfo) (id : string) : bytes :=
  default [] (ReceivedKeys a !! id).

Definition received (net : Network) (a b : string) : option bytes :=
  ReceivedKeys (auth_of net a) !! b.

(** What holds of every state of the handshake: a received key is never
    empty; an echo under way from [a] to [b] carries a non-empty key and
    [a] holds a key of [b]; and if [b] has authenticated [a], then [a]
    holds a key of [b]. *)
Record sound (net : Network) : Prop := {
  sound_keys : ∀ a b k, received net a b = Some k → k ≠ [];
  sound_echo : ∀ a b k, CheckOriginResponse a b k ∈ flying net →
                 k ≠ [] ∧ is_Some (received net a b);
  sound_auth : ∀ a b, authenticated (auth_of net b) a = true →
                 is_Some (received net a b)
}.

Lemma auth_of_update (net : Network) (n m : string) (r : AuthInfo * list Flying)
    (rest : list Flying) :
  auth_of (update net n r rest) m = if decide (n = m) then r.1 else auth_of net m.
Proof.
  unfold auth_of, update. simpl. rewrite lookup_insert.
  by destruct (decide (n = m)).
Qed.

Lemma sound_start : sound start.
Proof.
  split; unfold received, auth_of; simpl.
  - intros a b k. by rewrite lookup_empty.
  - intros a b k Hin. by apply elem_of_nil in Hin.
  - intros a b. unfold authenticated. by rewrite lookup_empty.
Qed.

(** A handler that keeps the received keys of its node, sends no echo
    and authenticates nobody new keeps the state sound. *)
Lemma sound_update_quiet (net : Network) (n : string) (r : AuthInfo * list Flying)
    (rest : list Flying) :
  sound net →
  ReceivedKeys r.1 = ReceivedKeys (auth_of net n) →
  (∀ a, authenticated r.1 a = true → authenticated (auth_of net n) a = true) →
  (∀ p, p ∈ rest → p ∈ flying net) →
  (∀ a b k, CheckOriginResponse a b k ∉ r.2) →
  sound (update net n r rest).
Proof.
  intros [Hkeys Hecho Hauth] Hrecv Hsame Hrest Hnew.
  assert (Hreceived : ∀ a b, received (update net n r rest) a b = received net a b).
  { intros a b. unfold received. rewrite auth_of_update.
    destruct (decide (n = a)) as [->|]; [by rewrite Hrecv|done]. }
  split.
  - intros a b k. rewrite Hreceived. apply Hkeys.
  - intros a b k. rewrite Hreceived. simpl. rewrite elem_of_app.
    intros [Hin|Hin]; [by apply Hecho, Hrest|by apply Hnew in Hin].
  - intros a b. rewrite Hreceived, auth_of_update.
    destruct (decide (n = b)) as [->|]; [|by apply Hauth].
    intros Hb. by apply Hauth, Hsame.
Qed.

Lemma delete_subset {A} (l : list A) (i : nat) (x : A) : x ∈ delete i l → x ∈ l.
Proof. apply list_elem_of_delete_inv. Qed.

Lemma step_sound (net : Network) (e : Event) : sound net → sound (step net e).
Proof.
  intros Hnet. destruct e as [a b source|a b|b a|i|i]; simpl.
  - (* Begin *)
    apply sound_update_quiet; try done.
    + unfold beginAuth. destruct (authenticated _ a); [done|].
      by destruct (rand_Read source 512).
    + intros c. unfold beginAuth. destruct (authenticated _ a); [done|].
      by destruct (rand_Read source 512).
    + intros c d k. unfold beginAuth. destruct (authenticated _ a); simpl.
      * rewrite list_elem_of_singleton. congruence.
      * destruct (rand_Read source 512); simpl.
        -- rewrite !elem_of_cons. intros [?|[?|?%elem_of_nil]]; congruence.
        -- apply not_elem_of_nil.
  - (* Revoke *)
    apply sound_update_quiet; try done.
    + intros c. unfold revokeAuth, authenticated. simpl.
      destruct (decide (a = c)) as [->|]; [by rewrite lookup_delete_eq|].
      by rewrite lookup_delete_ne.
    + intros c d k. simpl. rewrite list_elem_of_singleton. congruence.
  - (* Probe *)
    destruct Hnet as [Hkeys Hecho Hauth]. split; try done.
    intros c d k. simpl. rewrite elem_of_app, list_elem_of_singleton.
    intros [?|?]; [by apply Hecho|congruence].
  - (* Deliver *)
    destruct (flying net !! i) as [p|] eqn:Hp; [|done].
    assert (Hin : p ∈ flying net) by (by eapply list_elem_of_lookup_2).
    destruct p as [from to Success key|from to|from to key]; simpl.
    + (* the response to Auth reaches the initiator *)
      destruct Hnet as [Hkeys Hecho Hauth].
      assert (Hgrow : ∀ c d, is_Some (received net c d) →
        is_Some (received (update net to
                   ((handleAuthResponse (auth_of net to) Success key from).1, [])
                   (delete i (flying net))) c d)).
      { intros c d. unfold received. rewrite auth_of_update.
        destruct (decide (to = c)) as [->|]; [|done]. simpl.
        unfold handleAuthResponse. repeat (case_match; simpl; try done).
        destruct (decide (from = d)) as [->|]; [by rewrite lookup_insert_eq|].
        by rewrite lookup_insert_ne. }
      split.
      * intros c d k. unfold received. rewrite auth_of_update.
        destruct (decide (to = c)) as [->|]; [|apply Hkeys]. simpl.
        unfold handleAuthResponse.
        destruct (negb (bool_decide (length key = 0%nat)) && Success) eqn:Hstore.
        -- simpl. destruct (decide (from = d)) as [->|].
           ++ rewrite lookup_insert_eq. intros [= <-] ->.
              by rewrite bool_decide_eq_true_2 in Hstore.
           ++ rewrite lookup_insert_ne by done. apply Hkeys.
        -- repeat (case_match; simpl); apply Hkeys.
      * intros c d k. simpl. rewrite app_nil_r. intros Hk%delete_subset.
        destruct (Hecho c d k Hk). split; [done|]. by apply Hgrow.
      * intros c d Hd. apply Hgrow, Hauth. revert Hd. rewrite auth_of_update.
        destruct (decide (to = d)) as [->|]; [|done]. simpl.
        unfold handleAuthResponse. by repeat (case_match; simpl).
    + (* the origin check reaches the initiator *)
      destruct Hnet as [Hkeys Hecho Hauth].
      assert (Hsame : ∀ r c, auth_of (update net to (auth_of net to, r)
                                        (delete i (flying net))) c = auth_of net c).
      { intros r c. rewrite auth_of_update. by destruct (decide (to = c)) as [->|]. }
      destruct (ReceivedKeys (auth_of net to) !! from) as [key|] eqn:Hkey; simpl.
      * split; unfold received; intros c d; rewrite ?Hsame;
          [apply Hkeys| |apply Hauth].
        intros k. simpl. rewrite elem_of_app, list_elem_of_singleton.
        intros [Hk%delete_subset|[= -> -> ->]]; [by apply Hecho|].
        split; [by eapply Hkeys|]. by rewrite Hkey.
      * split; unfold received; intros c d; rewrite ?Hsame;
          [apply Hkeys| |apply Hauth].
        intros k. simpl. rewrite app_nil_r.
        intros Hk%delete_subset. by apply Hecho.
    + (* the echo reaches the issuer of the key *)
      destruct Hnet as [Hkeys Hecho Hauth].
      assert (Hreceived : ∀ c d,
        received (update net to (handleCheckOriginResponse (auth_of net to) key from, [])
                    (delete i (flying net))) c d = received net c d).
      { intros c d. unfold received. rewrite auth_of_update.
        destruct (decide (to = c)) as [->|]; [|done]. simpl.
        unfold handleCheckOriginResponse. by destruct (bytes_Equal _ _). }
      split.
      * intros c d k. rewrite Hreceived. apply Hkeys.
      * intros c d k. rewrite Hreceived. simpl. rewrite app_nil_r.
        intros Hk%delete_subset. by apply Hecho.
      * intros c d. rewrite Hreceived, auth_of_update.
        destruct (decide (to = d)) as [->|]; [|apply Hauth]. simpl.
        unfold handleCheckOriginResponse.
        destruct (bytes_Equal _ _); [|apply Hauth].
        unfold authenticated. simpl.
        destruct (decide (from = c)) as [->|].
        -- intros _. by apply (Hecho c d key).
        -- rewrite lookup_insert_ne by done. apply Hauth.
  - (* Lose *)
    destruct Hnet as [Hkeys Hecho Hauth]. split; try done.
    intros c d k Hk%delete_subset. by apply Hecho.
Qed.

Lemma reachable_sound (net : Network) : reachable net → sound net.
Proof.
  intros [events ->]. unfold run.
  induction events as [|e events IH] using rev_ind; [apply sound_start|].
  rewrite foldl_snoc. by apply step_sound.
Qed.

(** C2, as the code has it. At every reachable state of the handshake,
    for every pair of nodes (a, b): if [b] has [a] in
    [authenticatedNodes], then [a] holds a non-empty key of [b] in
    [ReceivedKeys]; and [b] comes to mark [a] authenticated by one step
    only, its handling of an echo from [a] whose key is the one it holds
    for [a] in [SentKeys], an entry it deletes in that same step. *)
Theorem authenticated_after_echo (net : Network) (e : Event) (a b : string) :
  reachable net →
  (authenticated (auth_of net b) a = true →
   ∃ k, received net a b = Some k ∧ k ≠ [])
  ∧ (authenticated (auth_of net b) a = false →
     authenticated (auth_of (step net e) b) a = true →
     ∃ i key,
       e = Deliver i
       ∧ flying net !! i = Some (CheckOriginResponse a b key)
       ∧ key ≠ []
       ∧ SentKeys (auth_of net b) !! a = Some key
       ∧ SentKeys (auth_of (step net e) b) !! a = None).
Proof.
  intros [Hkeys Hecho Hauth]%reachable_sound. split.
  - intros Hb. destruct (Hauth a b Hb) as [k Hk]. exists k. split; [done|].
    by eapply Hkeys.
  - intros Hbefore.
    destruct e as [c d source|c d|d c|i|i]; simpl;
      try (unfold auth_of in *; simpl; congruence).
    + (* Begin *)
      rewrite auth_of_update. destruct (decide (d = b)) as [->|]; [|congruence].
      unfold beginAuth. destruct (authenticated _ c); simpl; [congruence|].
      destruct (rand_Read source 512); unfold authenticated in *; simpl; congruence.
    + (* Revoke *)
      rewrite auth_of_update. destruct (decide (d = b)) as [->|]; [|congruence].
      unfold authenticated in *. simpl.
      destruct (decide (c = a)) as [->|]; [by rewrite lookup_delete_eq|].
      rewrite lookup_delete_ne by done. congruence.
    + (* Deliver *)
      destruct (flying net !! i) as [p|] eqn:Hp; [|congruence].
      rewrite !auth_of_update.
      destruct (decide (receiver p = b)) as [Hto|]; [|congruence].
      destruct p as [from to Success key|from to|from to key];
        simpl in *; subst to.
      * unfold handleAuthResponse.
        repeat (case_match; simpl); unfold authenticated in *; simpl; congruence.
      * case_match; simpl; congruence.
      * unfold handleCheckOriginResponse.
        destruct (bytes_Equal key (sentKey (auth_of net b) from)) eqn:Hequal;
          [|congruence].
        unfold authenticated at 1. simpl.
        destruct (decide (from = a)) as [->|];
          [|rewrite lookup_insert_ne by done; intros; unfold authenticated in *;
            congruence].
        intros _. exists i, key.
        destruct (Hecho a b key) as [Hkey _]; [by eapply list_elem_of_lookup_2|].
        split_and!; try done; [|apply lookup_delete_eq].
        apply bool_decide_eq_true_1 in Hequal. unfold sentKey in Hequal.
        destruct (SentKeys (auth_of net b) !! a); simpl in *; congruence.
Qed.

(** The handshake run to its end between two nodes. *)
Definition handshake : list Event :=
  [Begin "A" "B" (replicate 512 7); Deliver 0; Deliver 0; Deliver 0].

Lemma authenticated_after_echo_witness :
  ∃ k, received (run handshake) "A" "B" = Some k ∧ k ≠ [].
Proof.
  assert (Hreach : reachable (run handshake)) by (by exists handshake).
  apply (proj1 (authenticated_after_echo (run handshake) (Lose 0) "A" "B" Hreach)).
  vm_compute. reflexivity.
Defined.

(** C2, as the spec has it, fails in both directions. After the
    handshake B has authenticated A, A holds the 512 bytes B sent, and B
    holds no key for A any more: the keys differ. Before anything
    happened both keys are absent, hence equal, and nobody is
    authenticated. *)
Lemma authenticated_is_not_key_equality :
  (reachable (run handshake)
   ∧ authenticated (auth_of (run handshake) "B") "A" = true
   ∧ bytes_Equal (recvKey (auth_of (run handshake) "A") "B")
                 (sentKey (auth_of (run handshake) "B") "A") = false)
  ∧ (reachable start
     ∧ authenticated (auth_of start "B") "A" = false
     ∧ bytes_Equal (recvKey (auth_of start "A") "B")
                   (sentKey (auth_of start "B") "A") = true).
Proof.
  split; (split; [by eexists _ + by exists []|]); split; vm_compute; reflexivity.
Qed.

(** *** Further properties of the engine *)

Section more_engine_facts.
Context `{Packages}.

Lemma find_target_key (keyBytes : bytes) (closest : list Node) (n : Node) :
  find_target keyBytes closest = Some n → ID n = keyBytes.
Proof.
  unfold find_target.
  assert (Hfold : ∀ start,
    (∀ m, start = Some m → ID m = keyBytes) →
    foldl (λ target m, if bytes_Equal (ID m) keyBytes then Some m else target)
          start closest = Some n → ID n = keyBytes).
  { induction closest as [|m closest IH]; intros start Hstart; simpl; [by apply Hstart|].
    apply IH. intros m'. destruct (bytes_Equal (ID m) keyBytes) eqn:Hm; [|apply Hstart].
    intros [= <-]. by apply bool_decide_eq_true_1 in Hm. }
  by apply Hfold.
Qed.

(** X3. Whatever way [FindNode] finds its target (the origin itself, the
    closest contact, a proxy, the network), a node it reports as
    existing carries the hash the key decodes to and comes without an
    error; when it reports an error or no node, the result is nil and
    false. *)
Theorem FindNode_returns_key (dht dht' : DHT) (ctx : nat) (key : string) (it : Iterated)
    (node : option Node) (exists_ : bool) (err : option error) :
  FindNode dht ctx key it = Ok ((node, exists_, err), dht') →
  (exists_ = true → err = None ∧ ∃ n, node = Some n ∧ ID n = base58_Decode key)
  ∧ (exists_ = false → node = None)
  ∧ (is_Some err → exists_ = false).
Proof.
  unfold FindNode. case_bool_decide.
  { intros [= <- <- <- _]. split_and!; [done|done|done]. }
  destruct (htFromCtx dht ctx) as [ht| |]; simpl; [|done..].
  destruct (bytes_Equal (ID (Origin ht)) _) eqn:Horigin.
  { intros [= <- <- <- _]. split_and!; [|done|by intros [? [=]]].
    intros _. split; [done|]. eexists. split; [done|].
    by apply bool_decide_eq_true_1 in Horigin. }
  destruct (GetClosestContacts ht 1 _ []) as [|first rest] eqn:Hclosest; simpl.
  - case_bool_decide.
    + destruct (GetNextProxyAddress (proxy dht)). intros [= <- <- <- _].
      split_and!; [|done|by intros [? [=]]]. intros _. split; [done|]. by eexists.
    + destruct (it_err it).
      * intros [= <- <- <- _]. split_and!; [done|done|done].
      * intros [= <- <- <- _]. split_and!; [|by intros ?%bool_decide_eq_false_1%dec_stable|by intros [? [=]]].
        intros Hsome%bool_decide_eq_true_1. split; [done|].
        destruct (find_target _ _) as [n|] eqn:Hn; [|done].
        exists n. split; [done|]. by eapply find_target_key.
  - destruct (bytes_Equal (ID first) _) eqn:Hfirst.
    + intros [= <- <- <- _]. split_and!; [|done|by intros [? [=]]].
      intros _. split; [done|]. exists first. split; [done|].
      by apply bool_decide_eq_true_1 in Hfirst.
    + case_bool_decide.
      * destruct (GetNextProxyAddress (proxy dht)). intros [= <- <- <- _].
        split_and!; [|done|by intros [? [=]]]. intros _. split; [done|]. by eexists.
      * destruct (it_err it).
        -- intros [= <- <- <- _]. split_and!; [done|done|done].
        -- intros [= <- <- <- _].
           split_and!; [|by intros ?%bool_decide_eq_false_1%dec_stable|by intros [? [=]]].
           intros Hsome%bool_decide_eq_true_1. split; [done|].
           destruct (find_target _ _) as [n|] eqn:Hn; [|done].
           exists n. split; [done|]. by eapply find_target_key.
Qed.

(** X4. Adding a contact that is not in its bucket keeps the bucket
    within K contacts if it was, whatever becomes of the ping: a bucket
    with room gets the contact at its tail, without any regard to the
    ping; every contact of the bucket afterwards was in it before or is
    the new one; and no other bucket, table or part of the node
    changes. *)
Theorem addNode_keeps_buckets (dht dht' : DHT) (ctx : nat) (ht : HashTable)
    (node : Node) (ping : Await) (bucket : list Node) :
  let index := GetBucketIndexFromDifferingBit (ID (Origin ht)) (ID node) in
  htFromCtx dht ctx = Ok ht →
  DoesNodeExistInBucket ht index (ID node) = false →
  RoutingTable ht !! index = Some bucket →
  Z.of_nat (length bucket) ≤ MaxContactsInBucket →
  addNode dht ctx node ping = Ok dht' →
  ∃ ht' bucket',
    tables dht' !! ctx = Some ht'
    ∧ RoutingTable ht' !! index = Some bucket'
    ∧ Z.of_nat (length bucket') ≤ MaxContactsInBucket
    ∧ (Z.of_nat (length bucket) < MaxContactsInBucket → bucket' = bucket ++ [node])
    ∧ (∀ n, n ∈ bucket' → n ∈ bucket ∨ n = node)
    ∧ Origin ht' = Origin ht
    ∧ (∀ j, j ≠ index → RoutingTable ht' !! j = RoutingTable ht !! j)
    ∧ (∀ c, c ≠ ctx → tables dht' !! c = tables dht !! c)
    ∧ (store dht', relay dht', proxy dht', auth dht', options dht')
      = (store dht, relay dht, proxy dht, auth dht, options dht).
Proof.
  intros index Hht Hnew Hbucket Hbound. unfold addNode. rewrite Hht. simpl.
  fold index. rewrite Hnew, Hbucket.
  assert (Hindex : (index < length (RoutingTable ht))%nat) by (by eapply lookup_lt_Some).
  assert (Hctx : tables dht !! ctx = Some ht).
  { unfold htFromCtx in Hht. by destruct (tables dht !! ctx); simplify_eq. }
  assert (Hwrite : ∀ b,
    Z.of_nat (length b) ≤ MaxContactsInBucket →
    (Z.of_nat (length bucket) < MaxContactsInBucket → b = bucket ++ [node]) →
    (∀ n, n ∈ b → n ∈ bucket ∨ n = node) →
    dht' = with_tables dht (<[ctx := set_bucket ht index b]> (tables dht)) →
    ∃ ht' bucket',
      tables dht' !! ctx = Some ht'
      ∧ RoutingTable ht' !! index = Some bucket'
      ∧ Z.of_nat (length bucket') ≤ MaxContactsInBucket
      ∧ (Z.of_nat (length bucket) < MaxContactsInBucket → bucket' = bucket ++ [node])
      ∧ (∀ n, n ∈ bucket' → n ∈ bucket ∨ n = node)
      ∧ Origin ht' = Origin ht
      ∧ (∀ j, j ≠ index → RoutingTable ht' !! j = RoutingTable ht !! j)
      ∧ (∀ c, c ≠ ctx → tables dht' !! c = tables dht !! c)
      ∧ (store dht', relay dht', proxy dht', auth dht', options dht')
        = (store dht, relay dht, proxy dht, auth dht, options dht)).
  { intros b Hb Hroom Hfrom ->. exists (set_bucket ht index b), b. split_and!; try done.
    - by eapply addNode_tables.
    - simpl. by apply list_lookup_insert_eq.
    - intros j Hj. simpl. by apply list_lookup_insert_ne.
    - intros c Hc. simpl. by apply list_lookup_insert_ne. }
  unfold MaxContactsInBucket in *.
  case_bool_decide as Hfull.
  - destruct ping as [e|rsp| |]; intros [= <-].
    + apply (Hwrite (drop 1 (bucket ++ [node]))); [| lia | |done].
      * rewrite length_drop, length_app. simpl. lia.
      * intros n Hn%(elem_of_sublist _ _ _)%elem_of_app; [|apply sublist_drop].
        destruct Hn as [?|?%list_elem_of_singleton]; auto.
    + exists ht, bucket. split_and!; try done; try (intros; lia); auto.
    + exists ht, bucket. split_and!; try done; try (intros; lia); auto.
    + apply (Hwrite (drop 1 bucket ++ [node])); [| lia | |done].
      * rewrite length_app, length_drop. simpl. lia.
      * intros n [Hn|?%list_elem_of_singleton]%elem_of_app; [|auto].
        left. eapply elem_of_sublist; [exact Hn|apply sublist_drop].
  - intros [= <-]. apply (Hwrite (bucket ++ [node])); [|done| |done].
    + rewrite length_app. simpl. lia.
    + intros n [?|?%list_elem_of_singleton]%elem_of_app; auto.
Qed.

(** X5. [handleCheckOriginResponse] marks the target authenticated
    exactly when the echoed key equals the key pending for it, an
    absent entry reading as the empty key (so an empty echo
    authenticates a target for which no key is pending); it then drops
    the pending key. A different echo changes nothing, and nothing ever
    changes for another target or in the received keys. *)
Theorem handleCheckOriginResponse_exact (a : AuthInfo) (key : bytes) (targetID : string) :
  let a' := handleCheckOriginResponse a key targetID in
  (key = sentKey a targetID →
   authenticated a' targetID = true ∧ SentKeys a' !! targetID = None)
  ∧ (key ≠ sentKey a targetID → a' = a)
  ∧ ReceivedKeys a' = ReceivedKeys a
  ∧ (∀ other, other ≠ targetID →
       authenticated a' other = authenticated a other
       ∧ SentKeys a' !! other = SentKeys a !! other).
Proof.
  unfold handleCheckOriginResponse, bytes_Equal. simpl. split_and!.
  - intros ->. rewrite bool_decide_eq_true_2 by done. simpl. split.
    + unfold authenticated. simpl. by rewrite lookup_insert_eq.
    + apply lookup_delete_eq.
  - intros Hne. by rewrite bool_decide_eq_false_2.
  - by case_bool_decide.
  - intros other Hother. case_bool_decide; [|done]. unfold authenticated. simpl.
    by rewrite lookup_insert_ne, lookup_delete_ne.
Qed.


(** X7. An origin check that ends with an error (the target is not
    found, the request is not sent, not answered in time, or its
    channel is closed) leaves the authentication state as it was; one
    that ends without error was answered, and the answer was handled. *)
Theorem CheckOriginRequest_outcome (dht dht' : DHT) (ctx : nat) (targetID : string)
    (it : Iterated) (co : Await) (err : option error) (sent : list Sent) :
  CheckOriginRequest dht ctx targetID it co = Ok (err, dht', sent) →
  (is_Some err → auth dht' = auth dht)
  ∧ (err = None →
     ∃ rsp key, co = Answered rsp ∧ Data rsp = ResponseCheckOrigin key
       ∧ auth dht' = handleCheckOriginResponse (auth dht) key targetID)
  ∧ (store dht', relay dht') = (store dht, relay dht).
Proof.
  unfold CheckOriginRequest.
  destruct (FindNode dht ctx targetID it) as [[[[target exists_] e] dht1]| |] eqn:Hfind;
    simpl; [|done..].
  assert (Hsame : auth dht1 = auth dht ∧ store dht1 = store dht ∧ relay dht1 = relay dht).
  { revert Hfind. unfold FindNode. case_bool_decide; [by intros [= _ _ _ <-]|].
    destruct (htFromCtx dht ctx) as [ht| |]; simpl; [|done..].
    destruct (bytes_Equal _ _); [by intros [= _ _ _ <-]|].
    destruct (match GetClosestContacts ht 1 _ [] with [] => _ | _ => _ end);
      [by intros [= _ _ _ <-]|].
    case_bool_decide.
    - destruct (GetNextProxyAddress (proxy dht)). by intros [= _ _ _ <-].
    - destruct (it_err it); by intros [= _ _ _ <-]. }
  destruct Hsame as (Hauth & Hstore & Hrelay).
  destruct e; [intros [= <- <- _]; split_and!; [done|done|by rewrite Hstore, Hrelay]|].
  destruct exists_; simpl;
    [|intros [= <- <- _]; split_and!; [done|done|by rewrite Hstore, Hrelay]].
  destruct target; [|done].
  destruct (htFromCtx dht1 ctx); simpl; [|done..].
  destruct co as [?|rsp| |];
    try (intros [= <- <- _]; split_and!; [done|done|by rewrite Hstore, Hrelay]).
  destruct (Data rsp) eqn:Hdata; try done.
  intros [= <- <- _]. split_and!.
  - by intros [? [=]].
  - intros _. eexists _, _. split_and!; [done|done|]. simpl. by rewrite Hauth.
  - simpl. by rewrite Hstore, Hrelay.
Qed.

(** X8. Once a node has handled Auth(Revoke) of a sender, the next relay
    request of that sender is answered with [NoAuth] and changes
    nothing, whatever the sender was before. *)
Theorem revoked_sender_is_refused (dht dht1 : DHT) (ctx : nat)
    (revoke request packetBuilder packetBuilder' : Packet) (source : bytes)
    (it : Iterated) (co ping : Await) (sent : list Sent) :
  Data revoke = RequestAuth RevokeAuth →
  ID (Sender request) = ID (Sender revoke) →
  processAuthentication dht ctx revoke packetBuilder source it co = Ok (dht1, sent) →
  processRelay dht1 ctx request packetBuilder' ping
  = Ok (dht1, [SendResponse (RequestID request)
                  (Response packetBuilder' (ResponseRelay NoAuth))]).
Proof.
  intros Hrevoke Hsender. unfold processAuthentication. rewrite Hrevoke.
  intros [= <- _]. unfold processRelay.
  rewrite Hsender. unfold authenticated. simpl. by rewrite lookup_delete_eq.
Qed.

End more_engine_facts.

Definition peer_key : string := HashString (ID peer).

Definition auth_revoke (from : Node) : Packet :=
  {| Sender := from; Receiver := me; Type_ := TypeAuth; RequestID := 44;
     Data := RequestAuth RevokeAuth |}.

Lemma FindNode_returns_key_witness :
  ∃ n, Some peer = Some n ∧ ID n = base58_Decode peer_key.
Proof.
  refine (proj2 (proj1 (FindNode_returns_key (node_with [peer] []) (node_with [peer] [])
            0 peer_key nothing_found (Some peer) true None _) eq_refl)).
  vm_compute. reflexivity.
Defined.

Lemma addNode_keeps_buckets_witness :
  ∃ dht' ht',
    addNode (node_with [contact 1] []) 0 (contact 2) TimedOut = Ok dht'
    ∧ tables dht' !! 0%nat = Some ht'
    ∧ RoutingTable ht' !! 0%nat = Some [contact 1; contact 2].
Proof.
  destruct (addNode (node_with [contact 1] []) 0 (contact 2) TimedOut)
    as [dht'| |] eqn:Hrun; [|by vm_compute in Hrun..].
  destruct (addNode_keeps_buckets (node_with [contact 1] []) dht' 0
              {| Origin := me; RoutingTable := [[contact 1]] |} (contact 2) TimedOut
              [contact 1] eq_refl eq_refl eq_refl ltac:(vm_compute; discriminate) Hrun)
    as (ht' & bucket' & Htab & Hbucket & _ & Happend & _).
  exists dht', ht'. split_and!; [done..|].
  rewrite Happend in Hbucket by (vm_compute; reflexivity). exact Hbucket.
Defined.

Lemma handleCheckOriginResponse_exact_witness :
  authenticated
    (handleCheckOriginResponse
       {| SentKeys := {[ "A" := [1; 2] ]}; ReceivedKeys := ∅; authenticatedNodes := ∅ |}
       [1; 2] "A") "A" = true.
Proof.
  exact (proj1 (proj1 (handleCheckOriginResponse_exact
    {| SentKeys := {[ "A" := [1; 2] ]}; ReceivedKeys := ∅; authenticatedNodes := ∅ |}
    [1; 2] "A") eq_refl)).
Defined.


Lemma CheckOriginRequest_outcome_witness :
  ∃ dht' sent,
    CheckOriginRequest (node_with [peer] []) 0 peer_key nothing_found (Answered (echo [1]))
    = Ok (None, dht', sent)
    ∧ auth dht' = handleCheckOriginResponse (auth (node_with [peer] [])) [1] peer_key.
Proof.
  destruct (CheckOriginRequest (node_with [peer] []) 0 peer_key nothing_found
              (Answered (echo [1]))) as [[[[e|] dht'] sent]| |] eqn:Hrun;
    try by vm_compute in Hrun.
  exists dht', sent. split; [done|].
  destruct (CheckOriginRequest_outcome _ _ _ _ _ _ _ _ Hrun)
    as (_ & (rsp & key & [= <-] & [= <-] & Hauth) & _); done.
Defined.

Lemma revoked_sender_is_refused_witness :
  ∃ dht1 sent,
    processAuthentication (node_with [peer] [peer_key]) 0 (auth_revoke peer)
      (newBuilder {| Origin := me; RoutingTable := [[peer]] |} (auth_revoke peer))
      [] nothing_found TimedOut = Ok (dht1, sent)
    ∧ processRelay dht1 0 (relay_start peer)
        (newBuilder {| Origin := me; RoutingTable := [[peer]] |} (relay_start peer))
        TimedOut
      = Ok (dht1, [SendResponse 42
                     {| Sender := me; Receiver := peer; Type_ := TypeRelay;
                        RequestID := 0; Data := ResponseRelay NoAuth |}]).
Proof.
  destruct (processAuthentication (node_with [peer] [peer_key]) 0 (auth_revoke peer)
      (newBuilder {| Origin := me; RoutingTable := [[peer]] |} (auth_revoke peer))
      [] nothing_found TimedOut) as [[dht1 sent]| |] eqn:Hrun;
    try by vm_compute in Hrun.
  exists dht1, sent. split; [done|].
  exact (revoked_sender_is_refused (node_with [peer] [peer_key]) dht1 0
           (auth_revoke peer) (relay_start peer)
           (newBuilder {| Origin := me; RoutingTable := [[peer]] |} (auth_revoke peer))
           (newBuilder {| Origin := me; RoutingTable := [[peer]] |} (relay_start peer))
           [] nothing_found TimedOut TimedOut sent eq_refl eq_refl Hrun).
Defined.

(** *** Further properties of the handshake *)

Lemma step_Deliver (net : Network) (i : nat) (p : Flying) :
  flying net !! i = Some p →
  step net (Deliver i)
  = update net (receiver p) (handle (auth_of net (receiver p)) p) (delete i (flying net)).
Proof. intros Hp. simpl. by rewrite Hp. Qed.

Lemma rand_Read_length (source key : bytes) (n : nat) :
  rand_Read source n = Some key → length key = n.
Proof.
  unfold rand_Read. case_bool_decide; [done|]. intros [= <-].
  rewrite length_take. lia.
Qed.

Lemma handleAuthResponse_stores (a : AuthInfo) (key : bytes) (target : string) :
  key ≠ [] →
  (handleAuthResponse a true key target).1
  = {| SentKeys := SentKeys a;
       ReceivedKeys := <[target := key]> (ReceivedKeys a);
       authenticatedNodes := authenticatedNodes a |}.
Proof. intros Hkey. unfold handleAuthResponse. by destruct key. Qed.

(** The state after [Begin a b source] and the delivery of the response
    to [a], in terms of what matters to the rest of the handshake. *)
Lemma begin_then_response (net : Network) (a b : string) (source key : bytes)
    (rest : list Flying) :
  authenticated (auth_of net b) a = false →
  rand_Read source 512 = Some key →
  let net1 := step net (Begin a b source) in
  let net2 := update net1 a
                (handle (auth_of net1 a) (AuthResponse b a true key)) rest in
  flying net1 = flying net ++ [AuthResponse b a true key; CheckOrigin b a]
  ∧ SentKeys (auth_of net2 b) !! a = Some key
  ∧ ReceivedKeys (auth_of net2 a) !! b = Some key
  ∧ authenticated (auth_of net2 b) a = false
  ∧ flying net2 = rest.
Proof.
  intros Hauth Hkey net1 net2.
  assert (Hne : key ≠ []).
  { apply rand_Read_length in Hkey. by destruct key. }
  assert (Hbegin : beginAuth (auth_of net b) b a source
    = ({| SentKeys := <[a := key]> (SentKeys (auth_of net b));
          ReceivedKeys := ReceivedKeys (auth_of net b);
          authenticatedNodes := authenticatedNodes (auth_of net b) |},
       [AuthResponse b a true key; CheckOrigin b a])).
  { unfold beginAuth. by rewrite Hauth, Hkey. }
  assert (Hflying : flying net1 = flying net ++ [AuthResponse b a true key; CheckOrigin b a]).
  { unfold net1. simpl. by rewrite Hbegin. }
  split; [done|].
  assert (Hb1 : auth_of net1 b
    = {| SentKeys := <[a := key]> (SentKeys (auth_of net b));
         ReceivedKeys := ReceivedKeys (auth_of net b);
         authenticatedNodes := authenticatedNodes (auth_of net b) |}).
  { unfold net1. simpl. rewrite auth_of_update, Hbegin.
    by destruct (decide (b = b)). }
  unfold net2. simpl. rewrite !auth_of_update. simpl.
  rewrite handleAuthResponse_stores by done.
  destruct (decide (a = b)) as [->|Hab]; simpl.
  - destruct (decide (b = b)); [|done]. simpl. rewrite Hb1. simpl.
    rewrite !lookup_insert_eq.
    split_and!; try done; try apply app_nil_r; unfold authenticated in *; by simpl.
  - destruct (decide (a = a)); [|done]. simpl. rewrite Hb1. simpl.
    rewrite !lookup_insert_eq.
    split_and!; try done; try apply app_nil_r; unfold authenticated in *; by simpl.
Qed.

(** X9. The handshake completes from every state: if [b] has not
    authenticated [a] and the random source yields a key, then [b]'s
    handling of Auth(Begin), followed by the delivery of the response,
    of the origin check and of the echo, in this order, leaves [a]
    authenticated at [b], the key with [a], no key pending at [b] and
    the other packets under way as they were. *)
Theorem handshake_completes (net : Network) (a b : string) (source key : bytes) :
  authenticated (auth_of net b) a = false →
  rand_Read source 512 = Some key →
  let n := length (flying net) in
  let net' := foldl step net [Begin a b source; Deliver n; Deliver n; Deliver n] in
  authenticated (auth_of net' b) a = true
  ∧ received net' a b = Some key
  ∧ SentKeys (auth_of net' b) !! a = None
  ∧ flying net' = flying net.
Proof.
  intros Hauth Hkey n net'. unfold net'. cbn [foldl].
  assert (Hne : key ≠ []).
  { apply rand_Read_length in Hkey. by destruct key. }
  destruct (begin_then_response net a b source key (flying net ++ [CheckOrigin b a])
              Hauth Hkey) as (Hf1 & Hsent & Hrecv & Hnot & Hf2).
  set (net1 := step net (Begin a b source)) in *.
  rewrite (step_Deliver net1 n (AuthResponse b a true key))
    by (rewrite Hf1; apply list_lookup_middle; done).
  replace (delete n (flying net1)) with (flying net ++ [CheckOrigin b a])
    by (rewrite Hf1; unfold n; by rewrite (delete_middle (flying net))).
  simpl receiver.
  set (net2 := update net1 a _ _) in *.
  rewrite (step_Deliver net2 n (CheckOrigin b a))
    by (rewrite Hf2; apply list_lookup_middle; done).
  replace (delete n (flying net2)) with (flying net)
    by (rewrite Hf2; unfold n; by rewrite (delete_middle (flying net)), app_nil_r).
  simpl receiver. simpl handle. rewrite Hrecv.
  set (net3 := update net2 a _ _).
  assert (Hsame : ∀ c, auth_of net3 c = auth_of net2 c).
  { intros c. unfold net3. rewrite auth_of_update. simpl.
    by destruct (decide (a = c)) as [->|]. }
  assert (Hf3 : flying net3 = flying net ++ [CheckOriginResponse a b key]) by done.
  rewrite (step_Deliver net3 n (CheckOriginResponse a b key))
    by (rewrite Hf3; apply list_lookup_middle; done).
  replace (delete n (flying net3)) with (flying net)
    by (rewrite Hf3; unfold n; by rewrite (delete_middle (flying net)), app_nil_r).
  simpl receiver. simpl handle. rewrite Hsame.
  assert (Hdone : handleCheckOriginResponse (auth_of net2 b) key a
    = {| SentKeys := delete a (SentKeys (auth_of net2 b));
         ReceivedKeys := ReceivedKeys (auth_of net2 b);
         authenticatedNodes := <[a := true]> (authenticatedNodes (auth_of net2 b)) |}).
  { unfold handleCheckOriginResponse, sentKey. rewrite Hsent. simpl.
    unfold bytes_Equal. by rewrite bool_decide_eq_true_2. }
  rewrite Hdone. unfold received. rewrite !auth_of_update. simpl.
  destruct (decide (b = b)); [|done]. simpl.
  split_and!.
  - unfold authenticated. simpl. by rewrite lookup_insert_eq.
  - destruct (decide (b = a)) as [->|]; simpl; [done|]. by rewrite Hsame.
  - apply lookup_delete_eq.
  - by rewrite app_nil_r.
Qed.

(** X10. The handshake fails when the origin check overtakes the
    response: if the check reaches [a] before the key does, [a] echoes
    whatever it held before (or nothing), [b] refuses the echo, and the
    run ends with the same key held by [a] and pending at [b], and [a]
    not authenticated. *)
Theorem overtaken_handshake_fails (net : Network) (a b : string) (source key : bytes) :
  authenticated (auth_of net b) a = false →
  rand_Read source 512 = Some key →
  received net a b ≠ Some key →
  let n := length (flying net) in
  let net' := foldl step net [Begin a b source; Deliver (S n); Deliver n; Deliver n] in
  authenticated (auth_of net' b) a = false
  ∧ received net' a b = Some key
  ∧ SentKeys (auth_of net' b) !! a = Some key
  ∧ flying net' = flying net.
Proof.
  intros Hauth Hkey Hold n net'. unfold net'. cbn [foldl].
  assert (Hne : key ≠ []).
  { apply rand_Read_length in Hkey. by destruct key. }
  set (net1 := step net (Begin a b source)).
  set (old := match received net a b with
              | Some k => [CheckOriginResponse a b k]
              | None => []
              end).
  destruct (begin_then_response net a b source key (flying net ++ old) Hauth Hkey)
    as (Hf1 & Hsent & Hrecv & Hnot & Hf2).
  fold net1 in Hf1, Hsent, Hrecv, Hnot, Hf2.
  assert (Ha1 : ReceivedKeys (auth_of net1 a) !! b = received net a b).
  { unfold net1. simpl. rewrite auth_of_update.
    destruct (decide (b = a)) as [->|]; [|done].
    unfold beginAuth. rewrite Hauth, Hkey. done. }
  (* the origin check is handled first *)
  rewrite (step_Deliver net1 (S n) (CheckOrigin b a)).
  2:{ rewrite Hf1. rewrite (lookup_app_r (flying net)) by (unfold n; lia).
      by replace (S n - length (flying net))%nat with 1%nat by (unfold n; lia). }
  replace (delete (S n) (flying net1))
    with (flying net ++ [AuthResponse b a true key]).
  2:{ rewrite Hf1. unfold n.
      change (flying net ++ [AuthResponse b a true key; CheckOrigin b a])
        with (flying net ++ [AuthResponse b a true key] ++ [CheckOrigin b a]).
      rewrite (assoc_L (++)).
      replace (S (length (flying net)))
        with (length (flying net ++ [AuthResponse b a true key]))
        by (rewrite length_app; simpl; lia).
      by rewrite delete_middle, app_nil_r. }
  simpl receiver.
  set (net2 := update net1 a _ _).
  assert (Hsame : ∀ c, auth_of net2 c = auth_of net1 c).
  { intros c. unfold net2. rewrite auth_of_update. simpl.
    destruct (decide (a = c)) as [->|]; [|done]. by destruct (_ !! b). }
  assert (Hf2' : flying net2 = flying net ++ AuthResponse b a true key :: old).
  { unfold net2, old. simpl. rewrite Ha1.
    destruct (received net a b); simpl; by rewrite <-(assoc_L (++)). }
  (* then the response *)
  rewrite (step_Deliver net2 n (AuthResponse b a true key))
    by (rewrite Hf2'; by apply list_lookup_middle).
  replace (delete n (flying net2)) with (flying net ++ old)
    by (rewrite Hf2'; unfold n; by rewrite delete_middle).
  simpl receiver. rewrite Hsame.
  set (net3 := update net2 a _ _).
  assert (H3 : ∀ c, auth_of net3 c
    = auth_of (update net1 a (handle (auth_of net1 a) (AuthResponse b a true key))
                 (flying net ++ old)) c).
  { intros c. unfold net3. rewrite !auth_of_update.
    destruct (decide (a = c)); [done|]. apply Hsame. }
  rewrite <-(H3 b) in Hsent, Hnot. rewrite <-(H3 a) in Hrecv.
  assert (Hf3 : flying net3 = flying net ++ old) by (unfold net3; simpl; by rewrite app_nil_r).
  (* at last the echo, if there is one *)
  destruct (received net a b) as [k0|] eqn:Hk0; unfold old in *.
  - rewrite (step_Deliver net3 n (CheckOriginResponse a b k0))
      by (rewrite Hf3; by apply list_lookup_middle).
    replace (delete n (flying net3)) with (flying net)
      by (rewrite Hf3; unfold n; by rewrite delete_middle, app_nil_r).
    simpl receiver. simpl handle.
    assert (Hkeep : handleCheckOriginResponse (auth_of net3 b) k0 a = auth_of net3 b).
    { unfold handleCheckOriginResponse, sentKey. rewrite Hsent. simpl.
      unfold bytes_Equal. rewrite bool_decide_eq_false_2; [done|congruence]. }
    rewrite Hkeep. unfold received. rewrite !auth_of_update. simpl.
    destruct (decide (b = b)); [|done]. split_and!; try done.
    + by destruct (decide (b = a)) as [->|].
    + by rewrite app_nil_r.
  - assert (Hnone : flying net3 !! n = None).
    { rewrite Hf3, app_nil_r. by apply lookup_ge_None_2. }
    assert (Hstep : step net3 (Deliver n) = net3) by (unfold step; by rewrite Hnone).
    rewrite Hstep. split_and!; try done.
    by rewrite Hf3, app_nil_r.
Qed.

(** Every key that is stored or under way has 512 bytes, or is the nil
    key of a refusal or of a revocation. *)
Record sized (net : Network) : Prop := {
  sized_sent : ∀ n p k, SentKeys (auth_of net n) !! p = Some k → length k = 512%nat;
  sized_received : ∀ n p k, received net n p = Some k → length k = 512%nat;
  sized_response : ∀ from to ok k, AuthResponse from to ok k ∈ flying net →
                     k = [] ∨ length k = 512%nat
}.

Lemma sized_start : sized start.
Proof.
  split; unfold received, auth_of; simpl.
  - intros n p k. by rewrite lookup_empty.
  - intros n p k. by rewrite lookup_empty.
  - intros from to ok k Hin. by apply elem_of_nil in Hin.
Qed.

Lemma sized_update (net : Network) (n : string) (r : AuthInfo * list Flying)
    (rest : list Flying) :
  sized net →
  (∀ p k, SentKeys r.1 !! p = Some k → length k = 512%nat) →
  (∀ p k, ReceivedKeys r.1 !! p = Some k → length k = 512%nat) →
  (∀ q, q ∈ rest → q ∈ flying net) →
  (∀ from to ok k, AuthResponse from to ok k ∈ r.2 → k = [] ∨ length k = 512%nat) →
  sized (update net n r rest).
Proof.
  intros [Hsent Hrecv Hresp] Hs Hr Hrest Hnew. split.
  - intros m p k. rewrite auth_of_update.
    destruct (decide (n = m)); [apply Hs|apply Hsent].
  - intros m p k. unfold received. rewrite auth_of_update.
    destruct (decide (n = m)); [apply Hr|apply Hrecv].
  - intros from to ok k. simpl. rewrite elem_of_app.
    intros [Hin|Hin]; [by eapply Hresp, Hrest|by eapply Hnew].
Qed.

Lemma step_sized (net : Network) (e : Event) : sized net → sized (step net e).
Proof.
  intros Hnet. pose proof Hnet as [Hsent Hrecv Hresp].
  destruct e as [a b source|a b|b a|i|i]; simpl.
  - (* Begin *)
    apply sized_update; try done; unfold beginAuth;
      destruct (authenticated _ a); simpl; try (by apply Hsent); try (by apply Hrecv).
    + destruct (rand_Read source 512) as [key|] eqn:Hkey; simpl; [|by apply Hsent].
      intros p k. destruct (decide (a = p)) as [->|].
      * rewrite lookup_insert_eq. intros [= <-]. by eapply rand_Read_length.
      * rewrite lookup_insert_ne by done. apply Hsent.
    + destruct (rand_Read source 512); simpl; apply Hrecv.
    + intros from to ok k [= _ _ _ <-]%list_elem_of_singleton. by left.
    + destruct (rand_Read source 512) as [key|] eqn:Hkey; simpl.
      * intros from to ok k. rewrite !elem_of_cons.
        intros [[= _ _ _ ->]|[[=]|?%elem_of_nil]]; [|done].
        right. by eapply rand_Read_length.
      * intros from to ok k ?%elem_of_nil. done.
  - (* Revoke *)
    apply sized_update; try done; simpl; try (by apply Hsent); try (by apply Hrecv).
    intros from to ok k [= _ _ _ <-]%list_elem_of_singleton. by left.
  - (* Probe *)
    split; try done. intros from to ok k. simpl.
    rewrite elem_of_app, list_elem_of_singleton. intros [?|[=]]. by eapply Hresp.
  - (* Deliver *)
    destruct (flying net !! i) as [p|] eqn:Hp; [|done].
    assert (Hin : p ∈ flying net) by (by eapply list_elem_of_lookup_2).
    apply sized_update; try done; try (intros q; apply delete_subset).
    + destruct p as [from to ok key|from to|from to key]; simpl.
      * unfold handleAuthResponse. repeat (case_match; simpl); apply Hsent.
      * case_match; apply Hsent.
      * unfold handleCheckOriginResponse. case_match; simpl; [|apply Hsent].
        intros p k Hk. apply lookup_delete_Some in Hk as [_ Hk]. by eapply Hsent.
    + destruct p as [from to ok key|from to|from to key]; simpl.
      * unfold handleAuthResponse.
        destruct (negb (bool_decide (length key = 0%nat)) && ok) eqn:Hstore; simpl.
        -- intros p k. destruct (decide (from = p)) as [->|].
           ++ rewrite lookup_insert_eq. intros [= <-].
              destruct (Hresp _ _ _ _ Hin) as [->|?]; [|done].
              by rewrite bool_decide_eq_true_2 in Hstore.
           ++ rewrite lookup_insert_ne by done. apply Hrecv.
        -- repeat (case_match; simpl); apply Hrecv.
      * case_match; apply Hrecv.
      * unfold handleCheckOriginResponse. case_match; simpl; apply Hrecv.
    + destruct p as [from to ok key|from to|from to key]; simpl.
      * intros ???? ?%elem_of_nil. done.
      * case_match; simpl.
        -- intros ???? [=]%list_elem_of_singleton.
        -- intros ???? ?%elem_of_nil. done.
      * intros ???? ?%elem_of_nil. done.
  - (* Lose *)
    split; try done. intros from to ok k Hin%delete_subset. by eapply Hresp.
Qed.

(** X11. At every reachable state of the handshake, every key a node
    holds, issued ([SentKeys]) or received ([ReceivedKeys]), has exactly
    512 bytes. *)
Theorem keys_have_512_bytes (net : Network) (n p : string) (k : bytes) :
  reachable net →
  SentKeys (auth_of net n) !! p = Some k ∨ ReceivedKeys (auth_of net n) !! p = Some k →
  length k = 512%nat.
Proof.
  intros [events ->].
  assert (Hsized : sized (run events)).
  { unfold run. induction events as [|e events IH] using rev_ind; [apply sized_start|].
    rewrite foldl_snoc. by apply step_sized. }
  destruct Hsized as [Hsent Hrecv _]. intros [Hk|Hk]; [by eapply Hsent|by eapply Hrecv].
Qed.

(** *** Requests to a peer *)

Lemma handshake_completes_witness :
  authenticated (auth_of (run handshake) "B") "A" = true
  ∧ received (run handshake) "A" "B" = Some (replicate 512 7).
Proof.
  destruct (handshake_completes start "A" "B" (replicate 512 7) (replicate 512 7)
              eq_refl ltac:(vm_compute; reflexivity)) as (Hauth & Hkey & _).
  split; [exact Hauth|exact Hkey].
Defined.

Lemma overtaken_handshake_fails_witness :
  authenticated
    (auth_of (run [Begin "A" "B" (replicate 512 7); Deliver 1; Deliver 0; Deliver 0]) "B")
    "A" = false.
Proof.
  exact (proj1 (overtaken_handshake_fails start "A" "B" (replicate 512 7)
                  (replicate 512 7) eq_refl ltac:(vm_compute; reflexivity)
                  ltac:(vm_compute; discriminate))).
Defined.

Lemma keys_have_512_bytes_witness :
  reachable (run handshake)
  ∧ received (run handshake) "A" "B" = Some (replicate 512 7)
  ∧ length (replicate 512 (7 : Z)) = 512%nat.
Proof.
  assert (Hreach : reachable (run handshake)) by (by exists handshake).
  assert (Hkey : received (run handshake) "A" "B" = Some (replicate 512 7))
    by (vm_compute; reflexivity).
  split_and!; [done..|].
  exact (keys_have_512_bytes (run handshake) "A" "B" _ Hreach (or_intror Hkey)).
Defined.

Definition add_proxy (p : list string) (address : string) : list string :=
  p ++ [address].
Definition remove_proxy (p : list string) (address : string) : list string :=
  filter (λ a, a ≠ address) p.

#[local] Instance plain_proxy_list : @ProxyList plain_packages := {|
  AddProxyNode := add_proxy;
  RemoveProxyNode := remove_proxy
|}.

Section request_facts.
Context `{ProxyList}.

Lemma FindNode_frame (dht dht' : DHT) (ctx : nat) (key : string) (it : Iterated)
    (found : option Node * bool * option error) :
  FindNode dht ctx key it = Ok (found, dht') →
  auth dht' = auth dht ∧ store dht' = store dht ∧ relay dht' = relay dht.
Proof.
  unfold FindNode. case_bool_decide; [by intros [= _ <-]|].
  destruct (htFromCtx dht ctx) as [ht| |]; simpl; [|done..].
  destruct (bytes_Equal _ _); [by intros [= _ <-]|].
  destruct (match GetClosestContacts ht 1 _ [] with [] => _ | _ => _ end);
    [by intros [= _ <-]|].
  case_bool_decide.
  - destruct (GetNextProxyAddress (proxy dht)). by intros [= _ <-].
  - destruct (it_err it); by intros [= _ <-].
Qed.

(** X12. The proxies of a node change through [RelayRequest] only when
    the peer answers [Started] or [Stopped]: every other end of the
    request (target not found, unknown command, send failure, closed
    channel, timeout, or an answer [NoAuth], [Unknown] or [Error]) is an
    error that leaves the proxies as the lookup of the target left them;
    the authentication state is never touched. *)
Theorem RelayRequest_proxies (dht dht1 dht' : DHT) (ctx : nat) (command targetID : string)
    (it : Iterated) (co : Await) (found : option Node * bool * option error)
    (err : option error) (sent : list Sent) :
  FindNode dht ctx targetID it = Ok (found, dht1) →
  RelayRequest dht ctx command targetID it co = Ok (err, dht', sent) →
  auth dht' = auth dht
  ∧ ((∃ rsp, co = Answered rsp ∧ Data rsp = ResponseRelay Started
       ∧ err = None ∧ proxy dht' = AddProxyNode (proxy dht1) targetID)
     ∨ (∃ rsp, co = Answered rsp ∧ Data rsp = ResponseRelay Stopped
         ∧ err = None ∧ proxy dht' = RemoveProxyNode (proxy dht1) targetID)
     ∨ (is_Some err ∧ proxy dht' = proxy dht1)).
Proof.
  intros Hfind. unfold RelayRequest. rewrite Hfind. simpl.
  apply FindNode_frame in Hfind as (Hauth & _ & _).
  destruct found as [[target exists_] e].
  destruct e; [intros [= <- <- _]; split; [done|]; right; right; by split|].
  destruct exists_; simpl; [|intros [= <- <- _]; split; [done|]; right; right; by split].
  case_bool_decide; [|case_bool_decide];
    try (intros [= <- <- _]; split; [done|]; right; right; by split).
  all: destruct target; [|done].
  all: destruct (htFromCtx dht1 ctx); simpl; [|done..].
  all: destruct co as [?|rsp| |];
    try (intros [= <- <- _]; split; [done|]; right; right; by split).
  all: destruct (Data rsp) as [| | | |st| | | |] eqn:Hdata; try done.
  all: destruct st; simpl; intros [= <- <- _]; split; try done.
  all: try (right; right; by split).
  all: try (left; by eexists).
  all: right; left; by eexists.
Qed.

(** X13. A relay request to a peer that has not authenticated the
    sender fails at the sender with the error that it is not
    authenticated, and adds no proxy: the answer [processRelay] gives to
    an unauthenticated sender makes [RelayRequest] return that error. *)
Theorem unauthenticated_relay_fails (server server' client client1 client' : DHT)
    (ctx ctx' : nat) (request packetBuilder rsp : Packet) (ping : Await)
    (command targetID : string) (it : Iterated) (found : option Node * bool * option error)
    (rid : Z) (err : option error) (sent : list Sent) :
  authenticated (auth server) (HashString (ID (Sender request))) = false →
  processRelay server ctx request packetBuilder ping = Ok (server', [SendResponse rid rsp]) →
  FindNode client ctx' targetID it = Ok (found, client1) →
  RelayRequest client ctx' command targetID it (Answered rsp) = Ok (err, client', sent) →
  sent ≠ [] →
  server' = server
  ∧ err = Some (New "unable to execute relay because this node not authenticated")
  ∧ proxy client' = proxy client1.
Proof.
  intros Hauth. unfold processRelay. rewrite Hauth. simpl.
  intros [= <- _ <-] Hfind. unfold RelayRequest. rewrite Hfind. simpl.
  destruct found as [[target exists_] e].
  destruct e; [by intros [= _ _ <-]|].
  destruct exists_; simpl; [|by intros [= _ _ <-]].
  case_bool_decide; [|case_bool_decide]; try (by intros [= _ _ <-]).
  all: destruct target; [|done].
  all: destruct (htFromCtx client1 ctx'); simpl; [|done..].
  all: by intros [= <- <- _] _.
Qed.

(** X14. The key an initiator records is the key the peer issued: when
    a node handles Auth(Begin) of a sender it has not authenticated and
    the random source yields a key, the first packet it sends is the
    response with that key, and [AuthenticationRequest], answered with
    that packet, leaves the key in the initiator's [ReceivedKeys] under
    the identifier of the target, without error. *)
Theorem issued_key_is_received (server server' client client1 client' : DHT)
    (ctx ctx' : nat) (request packetBuilder rsp : Packet) (source key : bytes)
    (it it' : Iterated) (co : Await) (rid : Z) (rest sent : list Sent)
    (targetID : string) (target : Node) (err : option error) :
  Data request = RequestAuth BeginAuth →
  authenticated (auth server) (HashString (ID (Sender request))) = false →
  rand_Read source 512 = Some key →
  processAuthentication server ctx request packetBuilder source it co
    = Ok (server', SendResponse rid rsp :: rest) →
  FindNode client ctx' targetID it' = Ok ((Some target, true, None), client1) →
  AuthenticationRequest client ctx' "begin" targetID it' (Answered rsp)
    = Ok (err, client', sent) →
  Data rsp = ResponseAuth true key
  ∧ err = None
  ∧ ReceivedKeys (auth client') !! HashString (ID target) = Some key
  ∧ SentKeys (auth client') = SentKeys (auth client)
  ∧ authenticatedNodes (auth client') = authenticatedNodes (auth client).
Proof.
  intros Hdata Hauth Hkey. unfold processAuthentication. rewrite Hdata, Hauth, Hkey.
  destruct (CheckOriginRequest _ ctx _ it co) as [[[e dht1] sent1]| |]; simpl; [|done..].
  intros [= _ _ <- _] Hfind. unfold AuthenticationRequest. rewrite Hfind. simpl.
  apply FindNode_frame in Hfind as (Hsame & _ & _).
  destruct (htFromCtx client1 ctx'); simpl; [|done..].
  assert (Hne : key ≠ []) by (apply rand_Read_length in Hkey; by destruct key).
  unfold handleAuthResponse. rewrite bool_decide_eq_false_2 by (by destruct key).
  simpl. intros [= <- <- _]. simpl. rewrite lookup_insert_eq, Hsame. done.
Qed.

(** *** The subnet *)

(** The nodes seen outside the home subnet. *)
(** What a call of [countOuterNodes] adds to [SelfKnownOuterNodes]. *)
Definition counted (sub : Subnet) : Z :=
  SelfKnownOuterNodes (HighKnownNodes (countOuterNodes sub))
  - SelfKnownOuterNodes (HighKnownNodes sub).

Definition outer_nodes (sub : Subnet) : nat :=
  sum_list_with (λ kv, length kv.2)
    (map_to_list (delete (HomeSubnetKey sub) (SubnetIDs sub))).

Lemma outer_fold (home : string) (m : gmap string (list string)) (self : Z) :
  map_fold (λ key nodes self,
              if bool_decide (key = home) then self
              else self + Z.of_nat (length nodes)) self m
  = self + Z.of_nat (sum_list_with (λ kv, length kv.2) (map_to_list (delete home m))).
Proof.
  induction m as [|i x m Hi IH] using map_ind.
  - rewrite map_fold_empty, delete_empty, map_to_list_empty. simpl. lia.
  - rewrite map_fold_insert_L; [|intros; repeat case_bool_decide; lia|done].
    rewrite IH. case_bool_decide as Hhome.
    + subst i. by rewrite delete_insert_eq.
    + rewrite delete_insert_ne by done.
      rewrite map_to_list_insert by (by rewrite lookup_delete_ne).
      simpl. lia.
Qed.

(** X15. [countOuterNodes] adds to [SelfKnownOuterNodes] the number of
    nodes seen under every address but the home subnet's, provided more
    than one address is known; with at most one address it changes
    nothing. It adds on every call: counting twice counts twice. *)
Theorem countOuterNodes_adds (sub : Subnet) :
  let sub' := countOuterNodes sub in
  SelfKnownOuterNodes (HighKnownNodes sub')
  = SelfKnownOuterNodes (HighKnownNodes sub)
    + (if bool_decide (1 < size (SubnetIDs sub))%nat
       then Z.of_nat (outer_nodes sub) else 0)
  ∧ SelfKnownOuterNodes (HighKnownNodes (countOuterNodes sub'))
    = SelfKnownOuterNodes (HighKnownNodes sub)
      + 2 * (if bool_decide (1 < size (SubnetIDs sub))%nat
             then Z.of_nat (outer_nodes sub) else 0)
  ∧ (SubnetIDs sub', HomeSubnetKey sub', PossibleRelayIDs sub', PossibleProxyIDs sub')
    = (SubnetIDs sub, HomeSubnetKey sub, PossibleRelayIDs sub, PossibleProxyIDs sub)
  ∧ (HK_ID (HighKnownNodes sub'), OuterNodes (HighKnownNodes sub'))
    = (HK_ID (HighKnownNodes sub), OuterNodes (HighKnownNodes sub)).
Proof.
  unfold countOuterNodes. simpl.
  case_bool_decide as Hsize; simpl.
  - rewrite bool_decide_eq_true_2 by done. simpl.
    rewrite !outer_fold. unfold outer_nodes. split_and!; try done. lia.
  - rewrite bool_decide_eq_false_2 by done. split_and!; try done; lia.
Qed.

Lemma counted_guarded (sub : Subnet) :
  counted sub
  = if bool_decide (1 < size (SubnetIDs sub))%nat then Z.of_nat (outer_nodes sub) else 0.
Proof.
  unfold counted, countOuterNodes. case_bool_decide; simpl; [|lia].
  rewrite outer_fold. unfold outer_nodes. lia.
Qed.

(** X16. An address observed for a peer is recorded at the end of the
    list of that address, the other addresses keeping their lists. When
    more than one address was known before, so that [countOuterNodes]
    counts at all, what [countOuterNodes] adds is one more after the
    call than before, unless the address is the home subnet's, and then
    it is the same. An empty address is refused with an error and
    changes nothing. *)
Theorem handleObtainIPResponse_records (sub : Subnet) (IP target : string) :
  let '(sub', err) := handleObtainIPResponse sub IP target in
  (IP = "" → sub' = sub ∧ err = Some (New "received empty IP"))
  ∧ (IP ≠ "" →
     err = None
     ∧ SubnetIDs sub' !! IP = Some (default [] (SubnetIDs sub !! IP) ++ [target])
     ∧ (∀ other, other ≠ IP → SubnetIDs sub' !! other = SubnetIDs sub !! other)
     ∧ (HomeSubnetKey sub', PossibleRelayIDs sub', PossibleProxyIDs sub',
        HighKnownNodes sub')
       = (HomeSubnetKey sub, PossibleRelayIDs sub, PossibleProxyIDs sub,
          HighKnownNodes sub)
     ∧ ((1 < size (SubnetIDs sub))%nat →
        counted sub'
        = counted sub + if bool_decide (IP = HomeSubnetKey sub) then 0 else 1)).
Proof.
  unfold handleObtainIPResponse. case_bool_decide as Hip; simpl.
  - split; [done|]. intros _. split_and!; try done.
    + apply lookup_insert_eq.
    + intros other Hother. by apply lookup_insert_ne.
    + intros Hsize. rewrite !counted_guarded. simpl.
      rewrite (bool_decide_eq_true_2 (1 < size (SubnetIDs sub))%nat) by done.
      rewrite bool_decide_eq_true_2
        by (rewrite map_size_insert; destruct (SubnetIDs sub !! IP); simpl; lia).
      unfold outer_nodes. simpl. case_bool_decide as Hhome.
      * subst IP. rewrite delete_insert_eq. lia.
      * rewrite delete_insert_ne by done.
        destruct (SubnetIDs sub !! IP) as [old|] eqn:Hold; simpl.
        -- rewrite <-(insert_delete_eq (delete (HomeSubnetKey sub) (SubnetIDs sub)) IP
                      (old ++ [target])).
           rewrite <-(insert_delete_id (delete (HomeSubnetKey sub) (SubnetIDs sub)) IP old)
             at 2 by (by rewrite lookup_delete_ne).
           rewrite !map_to_list_insert by apply lookup_delete_eq.
           simpl. rewrite length_app. simpl. lia.
        -- rewrite map_to_list_insert by (by rewrite lookup_delete_ne).
           simpl. lia.
  - split; [done|]. intros Hne. by destruct Hne.
Qed.

(** X17. One exchange of known outer nodes: a peer asked with the
    asker's highest count answers with the higher of that count and its
    own, and the asker then records the higher of the two with the
    identifier that goes with it, a tie leaving its record as it was;
    counts never go down. *)
Theorem known_outer_nodes_exchange (asker : DHT) (sub sub' peer : Subnet) (asker' : DHT)
    (ctx : nat) (askerID targetID : string) (response : SubnetData)
    (it1 it2 : Iterated) (co1 co2 : Await) (err : option error) (sent : list Sent) :
  processKnownOuterNodes peer
    (RequestKnownOuterNodes askerID (OuterNodes (HighKnownNodes sub))) = Ok response →
  handleKnownOuterNodes asker sub ctx response targetID it1 co1 it2 co2
    = Ok (err, asker', sub', sent) →
  OuterNodes (HighKnownNodes sub')
    = Z.max (OuterNodes (HighKnownNodes sub)) (OuterNodes (HighKnownNodes peer))
  ∧ HK_ID (HighKnownNodes sub')
    = (if bool_decide (OuterNodes (HighKnownNodes peer) > OuterNodes (HighKnownNodes sub))
       then HK_ID (HighKnownNodes peer) else HK_ID (HighKnownNodes sub))
  ∧ SelfKnownOuterNodes (HighKnownNodes sub') = SelfKnownOuterNodes (HighKnownNodes sub)
  ∧ SubnetIDs sub' = SubnetIDs sub.
Proof.
  intros Hresponse.
  assert (∃ rid rn, response = ResponseKnownOuterNodes rid rn
    ∧ rn = Z.max (OuterNodes (HighKnownNodes sub)) (OuterNodes (HighKnownNodes peer))
    ∧ (rn > OuterNodes (HighKnownNodes sub) → rid = HK_ID (HighKnownNodes peer)))
    as (rid & rn & -> & Hmax & Hrid).
  { revert Hresponse. unfold processKnownOuterNodes.
    case_bool_decide; intros [= <-]; eexists _, _; (split; [done|]); split; lia || done. }
  unfold handleKnownOuterNodes.
  set (sub1 := if bool_decide _ then _ else sub).
  assert (Hsub1 : OuterNodes (HighKnownNodes sub1)
      = Z.max (OuterNodes (HighKnownNodes sub)) (OuterNodes (HighKnownNodes peer))
    ∧ HK_ID (HighKnownNodes sub1)
      = (if bool_decide (OuterNodes (HighKnownNodes peer) > OuterNodes (HighKnownNodes sub))
         then HK_ID (HighKnownNodes peer) else HK_ID (HighKnownNodes sub))
    ∧ SelfKnownOuterNodes (HighKnownNodes sub1)
      = SelfKnownOuterNodes (HighKnownNodes sub)
    ∧ SubnetIDs sub1 = SubnetIDs sub).
  { unfold sub1. case_bool_decide as Hup; simpl.
    - rewrite bool_decide_eq_true_2 by lia. split_and!; try done. by apply Hrid.
    - rewrite bool_decide_eq_false_2 by lia. split_and!; try done. lia. }
  destruct (_ && _).
  - destruct (AuthenticationRequest asker ctx "begin" targetID it1 co1)
      as [[[e1 d1] s1]| |]; simpl; [|done..].
    destruct e1; [by intros [= _ _ <- _]|].
    destruct (RelayRequest d1 ctx "start" targetID it2 co2)
      as [[[e2 d2] s2]| |]; simpl; [|done..].
    by intros [= _ _ <- _].
  - by intros [= _ _ <- _].
Qed.

(** X18. [handleKnownOuterNodes] makes no request when the node has a
    proxy already, or when the peer's count is not above the node's own
    count of outer nodes: it then sends nothing, returns no error and
    leaves the [DHT] as it was. Of the subnet it changes what it always
    changes: [HighKnownNodes] takes the reported identifier and count
    when that count is above the highest known, and stays as it was
    otherwise. *)
Theorem handleKnownOuterNodes_quiet (dht : DHT) (sub : Subnet) (ctx : nat)
    (responseID targetID : string) (responseOuterNodes : Z)
    (it1 it2 : Iterated) (co1 co2 : Await) :
  ProxyNodesCount (proxy dht) ≠ 0
  ∨ responseOuterNodes ≤ SelfKnownOuterNodes (HighKnownNodes sub) →
  handleKnownOuterNodes dht sub ctx
    (ResponseKnownOuterNodes responseID responseOuterNodes) targetID it1 co1 it2 co2
  = Ok (None, dht,
        (if bool_decide (responseOuterNodes > OuterNodes (HighKnownNodes sub))
         then with_HighKnownNodes sub
                {| HK_ID := responseID; OuterNodes := responseOuterNodes;
                   SelfKnownOuterNodes := SelfKnownOuterNodes (HighKnownNodes sub) |}
         else sub),
        []).
Proof.
  intros Hquiet. unfold handleKnownOuterNodes.
  set (sub1 := if bool_decide _ then _ else sub).
  assert (Hself : SelfKnownOuterNodes (HighKnownNodes sub1)
                  = SelfKnownOuterNodes (HighKnownNodes sub))
    by (unfold sub1; by case_bool_decide).
  rewrite Hself.
  destruct Hquiet as [Hproxy|Hlow].
  - rewrite (bool_decide_eq_false_2 (ProxyNodesCount _ = 0)) by done.
    by rewrite andb_false_r.
  - by rewrite (bool_decide_eq_false_2 (responseOuterNodes > _)) by lia.
Qed.

End request_facts.

Definition relay_answer (st : State) : Packet :=
  {| Sender := peer; Receiver := me; Type_ := TypeRelay; RequestID := 0;
     Data := ResponseRelay st |}.

(** A subnet that knows of [outer] outer nodes through the node [high]
    and of [self] by itself. *)
Definition subnet_with (ids : list (string * list string)) (high : string)
    (outer self : Z) : Subnet :=
  {| SubnetIDs := list_to_map ids; HomeSubnetKey := "10.0.0";
     PossibleRelayIDs := []; PossibleProxyIDs := [];
     HighKnownNodes := {| HK_ID := high; OuterNodes := outer;
                          SelfKnownOuterNodes := self |} |}.

Lemma RelayRequest_proxies_witness :
  ∃ dht' sent,
    RelayRequest (node_with [peer] []) 0 "start" peer_key nothing_found
      (Answered (relay_answer Started)) = Ok (None, dht', sent)
    ∧ auth dht' = auth (node_with [peer] []).
Proof.
  destruct (RelayRequest (node_with [peer] []) 0 "start" peer_key nothing_found
              (Answered (relay_answer Started))) as [[[[e|] dht'] sent]| |] eqn:Hrun;
    try by vm_compute in Hrun.
  exists dht', sent. split; [done|].
  refine (proj1 (RelayRequest_proxies (node_with [peer] []) (node_with [peer] []) dht' 0
                   "start" peer_key nothing_found _ (Some peer, true, None) None sent
                   _ Hrun)).
  vm_compute. reflexivity.
Defined.

Lemma unauthenticated_relay_fails_witness :
  ∃ client' sent,
    RelayRequest (node_with [peer] []) 0 "start" peer_key nothing_found
      (Answered (relay_answer NoAuth))
    = Ok (Some (New "unable to execute relay because this node not authenticated"),
          client', sent)
    ∧ proxy client' = proxy (node_with [peer] []).
Proof.
  destruct (RelayRequest (node_with [peer] []) 0 "start" peer_key nothing_found
              (Answered (relay_answer NoAuth))) as [[[err client'] sent]| |] eqn:Hrun;
    try by vm_compute in Hrun.
  destruct (unauthenticated_relay_fails (node_with [] []) (node_with [] [])
              (node_with [peer] []) (node_with [peer] []) client' 0 0
              (relay_start peer) (relay_answer Started) (relay_answer NoAuth) TimedOut
              "start" peer_key nothing_found (Some peer, true, None) 42 err sent
              eq_refl eq_refl ltac:(vm_compute; reflexivity) Hrun)
    as (_ & -> & Hproxy).
  { intros ->. by vm_compute in Hrun. }
  by exists client', sent.
Defined.

Lemma issued_key_is_received_witness :
  ∃ client' sent,
    AuthenticationRequest (node_with [peer] []) 0 "begin" peer_key nothing_found
      (Answered (Response (newBuilder {| Origin := me; RoutingTable := [[peer]] |}
                             (auth_begin peer))
                          (ResponseAuth true (replicate 512 7))))
    = Ok (None, client', sent)
    ∧ ReceivedKeys (auth client') !! peer_key = Some (replicate 512 7).
Proof.
  destruct (AuthenticationRequest (node_with [peer] []) 0 "begin" peer_key nothing_found
      (Answered (Response (newBuilder {| Origin := me; RoutingTable := [[peer]] |}
                             (auth_begin peer))
                          (ResponseAuth true (replicate 512 7)))))
    as [[[err client'] sent]| |] eqn:Hrun; try by vm_compute in Hrun.
  destruct (processAuthentication (node_with [peer] []) 0 (auth_begin peer)
      (newBuilder {| Origin := me; RoutingTable := [[peer]] |} (auth_begin peer))
      (replicate 512 7) nothing_found (Answered (echo (replicate 512 7))))
    as [[server' [|[rid rsp|] rest]]| |] eqn:Hserver; try by vm_compute in Hserver.
  assert (Hrsp : rsp = Response (newBuilder {| Origin := me; RoutingTable := [[peer]] |}
                                   (auth_begin peer))
                                (ResponseAuth true (replicate 512 7))).
  { vm_compute in Hserver. by injection Hserver as _ _ <- _. }
  destruct (issued_key_is_received (node_with [peer] []) server' (node_with [peer] [])
              (node_with [peer] []) client' 0 0 (auth_begin peer)
              (newBuilder {| Origin := me; RoutingTable := [[peer]] |} (auth_begin peer))
              rsp (replicate 512 7) (replicate 512 7) nothing_found nothing_found
              (Answered (echo (replicate 512 7))) rid rest sent peer_key peer err
              eq_refl eq_refl ltac:(vm_compute; reflexivity) Hserver
              ltac:(vm_compute; reflexivity) ltac:(by rewrite Hrsp))
    as (_ & -> & Hkey & _).
  by exists client', sent.
Defined.

Lemma handleObtainIPResponse_records_witness :
  SubnetIDs (handleObtainIPResponse
               (subnet_with [("10.0.0", ["H"]); ("10.0.1", ["S"])] "H" 0 0)
               "10.0.1" "T").1 !! "10.0.1" = Some ["S"; "T"]
  ∧ counted (handleObtainIPResponse
               (subnet_with [("10.0.0", ["H"]); ("10.0.1", ["S"])] "H" 0 0)
               "10.0.1" "T").1
    = counted (subnet_with [("10.0.0", ["H"]); ("10.0.1", ["S"])] "H" 0 0) + 1.
Proof.
  pose proof (handleObtainIPResponse_records
                (subnet_with [("10.0.0", ["H"]); ("10.0.1", ["S"])] "H" 0 0)
                "10.0.1" "T") as Hrecords.
  destruct (handleObtainIPResponse _ _ _) as [sub' err].
  destruct Hrecords as [_ (_ & Hnew & _ & _ & Hcount)]; [discriminate|].
  simpl. split; [exact Hnew|]. apply Hcount. vm_compute. lia.
Defined.

Lemma known_outer_nodes_exchange_witness :
  ∃ err asker' sub' sent,
    handleKnownOuterNodes (node_with [peer] []) (subnet_with [] "H" 1 0) 0
      (ResponseKnownOuterNodes "P" 4) peer_key nothing_found TimedOut
      nothing_found TimedOut = Ok (err, asker', sub', sent)
    ∧ OuterNodes (HighKnownNodes sub') = 4
    ∧ HK_ID (HighKnownNodes sub') = "P".
Proof.
  destruct (handleKnownOuterNodes (node_with [peer] []) (subnet_with [] "H" 1 0) 0
      (ResponseKnownOuterNodes "P" 4) peer_key nothing_found TimedOut
      nothing_found TimedOut) as [[[[err asker'] sub'] sent]| |] eqn:Hrun;
    try by vm_compute in Hrun.
  exists err, asker', sub', sent. split; [done|].
  destruct (known_outer_nodes_exchange (node_with [peer] []) (subnet_with [] "H" 1 0)
              sub' (subnet_with [] "P" 4 2) asker' 0 "me" peer_key
              (ResponseKnownOuterNodes "P" 4) nothing_found nothing_found
              TimedOut TimedOut err sent eq_refl Hrun) as (Houter & Hid & _).
  split; [exact Houter|exact Hid].
Defined.

Lemma handleKnownOuterNodes_quiet_witness :
  handleKnownOuterNodes (node_with [peer] []) (subnet_with [] "H" 1 5) 0
    (ResponseKnownOuterNodes "P" 4) peer_key nothing_found TimedOut
    nothing_found TimedOut
  = Ok (None, node_with [peer] [], subnet_with [] "P" 4 5, []).
Proof.
  apply (handleKnownOuterNodes_quiet (node_with [peer] []) (subnet_with [] "H" 1 5) 0
           "P" peer_key 4 nothing_found nothing_found TimedOut TimedOut).
  right. simpl. lia.
Defined.

(** *** One batch of an iterative query *)

(** The nodes a batch turned to: those it sent a request to and those
    on which the sending failed. *)
Definition turned_to (new : list Asked) (gone : list Node) : list Node :=
  (asked_Receiver <$> new) ++ gone.

(** The part of the route set a batch looks at from position [i] on. *)
Definition in_reach (queryRest : bool) (i : nat) (nodes : list Node) : list Node :=
  if queryRest then nodes else take (ParallelCalls - i) nodes.

Lemma was_contacted_insert (contacted : gmap (list Z) bool) (id id' : bytes) :
  was_contacted (<[id := true]> contacted) id'
  = if decide (id = id') then true else was_contacted contacted id'.
Proof.
  unfold was_contacted. rewrite lookup_insert. by destruct (decide (id = id')).
Qed.

Lemma batch_from (i : nat) (nodes : list Node) (queryRest : bool) (t : IterateType)
    (contacted : gmap (list Z) bool) (target : bytes) (futures : list Asked)
    (removeFromRouteSet : list Node) (send : Asked → option error)
    (futures' : list Asked) (removed' : list Node) (contacted' : gmap (list Z) bool) :
  sendPacketToAlphaNodes_from i nodes queryRest t contacted target futures
    removeFromRouteSet send = (futures', removed', contacted') →
  ∃ new gone,
    futures' = futures ++ new
    ∧ removed' = removeFromRouteSet ++ gone
    ∧ (∀ id, was_contacted contacted id = true → was_contacted contacted' id = true)
    ∧ (∀ id, was_contacted contacted' id = true →
         was_contacted contacted id = true ∨ id ∈ ID <$> turned_to new gone)
    ∧ (∀ r, r ∈ turned_to new gone →
         r ∈ in_reach queryRest i nodes ∧ was_contacted contacted (ID r) = false)
    ∧ NoDup (ID <$> turned_to new gone)
    ∧ (∀ q, q ∈ new → asked_Query q = getPacketBuilder t target ∧ send q = None)
    ∧ (∀ r, r ∈ gone →
         is_Some (send {| asked_Receiver := r; asked_Query := getPacketBuilder t target |}))
    ∧ (∀ r, r ∈ in_reach queryRest i nodes → was_contacted contacted' (ID r) = true).
Proof.
  revert i contacted futures removeFromRouteSet.
  induction nodes as [|receiver nodes IH]; intros i contacted futures removed; simpl.
  { intros [= <- <- <-]. exists [], []. rewrite !app_nil_r. unfold turned_to, in_reach.
    simpl. split_and!; try done; try (by left); try apply NoDup_nil_2;
      try (by intros ? ?%elem_of_nil).
    intros r. destruct queryRest; [|rewrite take_nil]; by intros ?%elem_of_nil. }
  destruct (bool_decide (ParallelCalls ≤ i)%nat && negb queryRest) eqn:Hbreak.
  { (* break *)
    apply andb_true_iff in Hbreak as [Hi%bool_decide_eq_true_1 Hq%negb_true_iff].
    subst queryRest. intros [= <- <- <-]. exists [], []. rewrite !app_nil_r.
    unfold turned_to, in_reach. replace (ParallelCalls - i)%nat with 0%nat by lia.
    simpl. split_and!; try done; try (by left); try apply NoDup_nil_2;
      by intros ? ?%elem_of_nil. }
  assert (Hreach : ∀ r, r ∈ in_reach queryRest (S i) nodes →
                        r ∈ in_reach queryRest i (receiver :: nodes)).
  { unfold in_reach. destruct queryRest; [by right|].
    simpl in Hbreak. rewrite andb_true_r in Hbreak.
    apply bool_decide_eq_false_1 in Hbreak.
    replace (ParallelCalls - i)%nat with (S (ParallelCalls - S i)) by lia.
    simpl. by right. }
  assert (Hhead : receiver ∈ in_reach queryRest i (receiver :: nodes)).
  { unfold in_reach. destruct queryRest; [by left|].
    simpl in Hbreak. rewrite andb_true_r in Hbreak.
    apply bool_decide_eq_false_1 in Hbreak.
    replace (ParallelCalls - i)%nat with (S (ParallelCalls - S i)) by lia.
    simpl. by left. }
  assert (Hall : ∀ r, r ∈ in_reach queryRest i (receiver :: nodes) →
                      r = receiver ∨ r ∈ in_reach queryRest (S i) nodes).
  { unfold in_reach. destruct queryRest; [by intros r Hr%elem_of_cons|].
    simpl in Hbreak. rewrite andb_true_r in Hbreak.
    apply bool_decide_eq_false_1 in Hbreak.
    replace (ParallelCalls - i)%nat with (S (ParallelCalls - S i)) by lia.
    simpl. by intros r Hr%elem_of_cons. }
  destruct (was_contacted contacted (ID receiver)) eqn:Hseen.
  { (* continue *)
    intros Hrun. destruct (IH _ _ _ _ Hrun)
      as (new & gone & -> & -> & Hkeep & Hfrom & Hturned & Hdistinct & Hnew & Hgone & Hafter).
    exists new, gone. split_and!; try done.
    - intros r Hr. destruct (Hturned r Hr). split; [by apply Hreach|done].
    - intros r [->|Hr]%Hall; [by apply Hkeep|by apply Hafter]. }
  set (contacted1 := <[ID receiver := true]> contacted).
  set (msg := {| asked_Receiver := receiver; asked_Query := getPacketBuilder t target |}).
  assert (Hstep : ∀ new gone contacted',
    (∀ id, was_contacted contacted1 id = true → was_contacted contacted' id = true) →
    (∀ id, was_contacted contacted' id = true →
       was_contacted contacted1 id = true ∨ id ∈ ID <$> turned_to new gone) →
    (∀ r, r ∈ turned_to new gone →
       r ∈ in_reach queryRest (S i) nodes ∧ was_contacted contacted1 (ID r) = false) →
    NoDup (ID <$> turned_to new gone) →
    (∀ r, r ∈ in_reach queryRest (S i) nodes → was_contacted contacted' (ID r) = true) →
    (∀ id, was_contacted contacted id = true → was_contacted contacted' id = true)
    ∧ (∀ id, was_contacted contacted' id = true →
         was_contacted contacted id = true ∨ id ∈ ID receiver :: (ID <$> turned_to new gone))
    ∧ (∀ r, r ∈ receiver :: turned_to new gone →
         r ∈ in_reach queryRest i (receiver :: nodes)
         ∧ was_contacted contacted (ID r) = false)
    ∧ NoDup (ID receiver :: (ID <$> turned_to new gone))
    ∧ (∀ r, r ∈ in_reach queryRest i (receiver :: nodes) →
         was_contacted contacted' (ID r) = true)).
  { intros new gone c' Hkeep Hfrom Hturned Hdistinct Hafter.
    assert (Hmark : was_contacted c' (ID receiver) = true).
    { apply Hkeep. unfold contacted1. rewrite was_contacted_insert.
      by destruct (decide (ID receiver = ID receiver)). }
    split_and!.
    - intros id Hid. apply Hkeep. unfold contacted1. rewrite was_contacted_insert.
      by destruct (decide (ID receiver = id)).
    - intros id Hid. destruct (Hfrom id Hid) as [Hone|?]; [|right; by right].
      revert Hone. unfold contacted1. rewrite was_contacted_insert.
      destruct (decide (ID receiver = id)) as [<-|]; [right; by left|by left].
    - intros r [->|Hr]%elem_of_cons; [done|].
      destruct (Hturned r Hr) as [? Hfresh]. split; [by apply Hreach|].
      revert Hfresh. unfold contacted1. rewrite was_contacted_insert.
      by destruct (decide (ID receiver = ID r)).
    - apply NoDup_cons. split; [|done].
      intros (r & Hid & Hr)%list_elem_of_fmap.
      destruct (Hturned r Hr) as [_ Hfresh]. revert Hfresh.
      unfold contacted1. rewrite was_contacted_insert, Hid.
      by destruct (decide (ID r = ID r)).
    - intros r [->|Hr]%Hall; [done|by apply Hafter]. }
  destruct (send msg) as [err|] eqn:Hsend.
  - (* the request is not sent *)
    intros Hrun. destruct (IH _ _ _ _ Hrun)
      as (new & gone & -> & -> & Hkeep & Hfrom & Hturned & Hdistinct & Hnew & Hgone & Hafter).
    destruct (Hstep new gone contacted' Hkeep Hfrom Hturned Hdistinct Hafter)
      as (H1 & H2 & H3 & H4 & H5).
    assert (Hperm : turned_to new (receiver :: gone) ≡ₚ receiver :: turned_to new gone).
    { unfold turned_to. by rewrite <-Permutation_middle. }
    exists new, (receiver :: gone). rewrite <-(assoc_L (++)). simpl.
    split_and!; try done.
    + intros id Hid. destruct (H2 id Hid) as [?|Hin]; [by left|right].
      by rewrite Hperm.
    + intros r Hr. apply H3. by rewrite <-Hperm.
    + by rewrite Hperm.
    + intros r [->|Hr]%elem_of_cons; [|by apply Hgone].
      unfold msg in Hsend. by rewrite Hsend.
  - (* the request is sent *)
    intros Hrun. destruct (IH _ _ _ _ Hrun)
      as (new & gone & -> & -> & Hkeep & Hfrom & Hturned & Hdistinct & Hnew & Hgone & Hafter).
    destruct (Hstep new gone contacted' Hkeep Hfrom Hturned Hdistinct Hafter)
      as (H1 & H2 & H3 & H4 & H5).
    exists (msg :: new), gone. rewrite <-(assoc_L (++)). simpl.
    split_and!; try done.
    intros q [->|Hq]%elem_of_cons; [done|by apply Hnew].
Qed.

Lemma batch_idle (i : nat) (nodes : list Node) (queryRest : bool) (t : IterateType)
    (contacted : gmap (list Z) bool) (target : bytes) (futures : list Asked)
    (removed : list Node) (send : Asked → option error) :
  (∀ r, r ∈ in_reach queryRest i nodes → was_contacted contacted (ID r) = true) →
  sendPacketToAlphaNodes_from i nodes queryRest t contacted target futures removed send
  = (futures, removed, contacted).
Proof.
  revert i. induction nodes as [|receiver nodes IH]; intros i Hall; simpl; [done|].
  destruct (bool_decide (ParallelCalls ≤ i)%nat && negb queryRest) eqn:Hbreak; [done|].
  assert (Hlt : queryRest = false → (i < ParallelCalls)%nat).
  { intros ->. simpl in Hbreak. rewrite andb_true_r in Hbreak.
    apply bool_decide_eq_false_1 in Hbreak. lia. }
  rewrite Hall.
  - apply IH. intros r Hr. apply Hall. revert Hr. unfold in_reach.
    destruct queryRest; [by right|].
    replace (ParallelCalls - i)%nat with (S (ParallelCalls - S i))
      by (specialize (Hlt eq_refl); lia).
    simpl. by right.
  - unfold in_reach. destruct queryRest; [by left|].
    replace (ParallelCalls - i)%nat with (S (ParallelCalls - S i))
      by (specialize (Hlt eq_refl); lia).
    simpl. by left.
Qed.

Section batch_facts.
Context (routeSet : list Node) (queryRest : bool) (t : IterateType)
  (contacted : gmap (list Z) bool) (target : bytes) (send : Asked → option error).

(** X19. A batch never turns to a node twice: every node it sends to,
    or fails to send to, was not marked contacted before and is marked
    after, no hash occurs twice among them, every mark it adds is for
    one of them and no mark is ever removed. *)
Theorem batch_contacts_once (futures : list Asked) (removed : list Node)
    (contacted' : gmap (list Z) bool) :
  sendPacketToAlphaNodes routeSet queryRest t contacted target [] [] send
    = (futures, removed, contacted') →
  NoDup (ID <$> turned_to futures removed)
  ∧ (∀ r, r ∈ turned_to futures removed →
       r ∈ routeSet
       ∧ was_contacted contacted (ID r) = false
       ∧ was_contacted contacted' (ID r) = true)
  ∧ (∀ id, was_contacted contacted' id = true ↔
           was_contacted contacted id = true ∨ id ∈ ID <$> turned_to futures removed).
Proof.
  intros Hrun. apply batch_from in Hrun
    as (new & gone & -> & -> & Hkeep & Hfrom & Hturned & Hdistinct & _ & _ & Hafter).
  simpl. split_and!; [done| |].
  - intros r Hr. destruct (Hturned r Hr) as [Hreach Hfresh]. split_and!; [|done|].
    + revert Hreach. unfold in_reach. destruct queryRest; [done|].
      intros Hreach. eapply elem_of_sublist; [exact Hreach|apply sublist_take].
    + by apply Hafter.
  - intros id. split; [apply Hfrom|].
    intros [?|(r & -> & Hr)%list_elem_of_fmap]; [by apply Hkeep|].
    apply Hafter. by apply Hturned.
Qed.

(** X20. Unless the rest of the route set is queried, a batch turns only
    to nodes among the first α = [ParallelCalls] of the route set,
    hence to α nodes at most; a node further down is not asked even
    when those before it were all contacted already. *)
Theorem batch_within_alpha (futures : list Asked) (removed : list Node)
    (contacted' : gmap (list Z) bool) :
  queryRest = false →
  sendPacketToAlphaNodes routeSet queryRest t contacted target [] [] send
    = (futures, removed, contacted') →
  (∀ r, r ∈ turned_to futures removed → r ∈ take ParallelCalls routeSet)
  ∧ (length futures + length removed ≤ ParallelCalls)%nat.
Proof.
  intros -> Hrun. apply batch_from in Hrun
    as (new & gone & -> & -> & _ & _ & Hturned & Hdistinct & _).
  assert (Hin : ∀ r, r ∈ turned_to new gone → r ∈ take ParallelCalls routeSet).
  { intros r Hr. destruct (Hturned r Hr) as [Hreach _]. exact Hreach. }
  change ([] ++ new) with new. change ([] ++ gone) with gone.
  split; [done|].
  apply NoDup_fmap_1 in Hdistinct.
  assert (Hsub : turned_to new gone ⊆+ take ParallelCalls routeSet).
  { apply NoDup_submseteq; [done|]. intros r Hr. by apply Hin. }
  apply submseteq_length in Hsub. revert Hsub.
  unfold turned_to. rewrite length_app, length_fmap, length_take. lia.
Qed.

(** X21. A batch repeated on the same route set with the marks of the
    first one turns to nobody: it returns the futures and removals it
    was given and the marks unchanged. *)
Theorem batch_repeated_is_idle (futures : list Asked) (removed : list Node)
    (contacted' : gmap (list Z) bool) (send' : Asked → option error)
    (futures0 : list Asked) (removed0 : list Node) :
  sendPacketToAlphaNodes routeSet queryRest t contacted target [] [] send
    = (futures, removed, contacted') →
  sendPacketToAlphaNodes routeSet queryRest t contacted' target futures0 removed0 send'
    = (futures0, removed0, contacted').
Proof.
  intros Hrun. apply batch_from in Hrun as (_ & _ & _ & _ & _ & _ & _ & _ & _ & _ & Hafter).
  by apply batch_idle.
Qed.

End batch_facts.

(** A route set of four, of which the second was contacted before; the
    sending fails on the third. *)
Definition route : list Node := contact <$> [1; 2; 3; 4].
Definition marks : gmap (list Z) bool := {[ [2] := true ]}.
Definition sending (msg : Asked) : option error :=
  if bool_decide (ID (asked_Receiver msg) = [3]) then Some (New "unreachable") else None.

Lemma batch_contacts_once_witness :
  ∃ futures removed contacted',
    sendPacketToAlphaNodes route true IterateFindNode marks [9] [] [] sending
    = (futures, removed, contacted')
    ∧ NoDup (ID <$> turned_to futures removed)
    ∧ length futures = 2%nat.
Proof.
  destruct (sendPacketToAlphaNodes route true IterateFindNode marks [9] [] [] sending)
    as [[futures removed] contacted'] eqn:Hrun.
  exists futures, removed, contacted'. split_and!; [done| |].
  - exact (proj1 (batch_contacts_once _ _ _ _ _ _ _ _ _ Hrun)).
  - vm_compute in Hrun. by injection Hrun as <- _ _.
Defined.

Lemma batch_within_alpha_witness :
  ∃ futures removed contacted',
    sendPacketToAlphaNodes route false IterateFindNode marks [9] [] [] sending
    = (futures, removed, contacted')
    ∧ (length futures + length removed ≤ ParallelCalls)%nat
    ∧ length futures = 1%nat.
Proof.
  destruct (sendPacketToAlphaNodes route false IterateFindNode marks [9] [] [] sending)
    as [[futures removed] contacted'] eqn:Hrun.
  exists futures, removed, contacted'. split_and!; [done| |].
  - exact (proj2 (batch_within_alpha _ _ _ _ _ _ _ _ _ eq_refl Hrun)).
  - vm_compute in Hrun. by injection Hrun as <- _ _.
Defined.

Lemma batch_repeated_is_idle_witness :
  ∃ futures removed contacted',
    sendPacketToAlphaNodes route false IterateFindNode marks [9] [] [] sending
    = (futures, removed, contacted')
    ∧ sendPacketToAlphaNodes route false IterateFindNode contacted' [9] [] [] (λ _, None)
      = ([], [], contacted').
Proof.
  destruct (sendPacketToAlphaNodes route false IterateFindNode marks [9] [] [] sending)
    as [[futures removed] contacted'] eqn:Hrun.
  exists futures, removed, contacted'. split; [done|].
  exact (batch_repeated_is_idle _ _ _ _ _ _ _ _ _ (λ _, None) [] [] Hrun).
Defined.

(** *** Distance *)

Definition is_byte (x : Z) : Prop := 0 ≤ x < 256.

Lemma SetBytes_snoc (buf : bytes) (x : Z) : SetBytes (buf ++ [x]) = SetBytes buf * 256 + x.
Proof. unfold SetBytes. by rewrite foldl_snoc. Qed.

Lemma SetBytes_nonneg (buf : bytes) : Forall is_byte buf → 0 ≤ SetBytes buf.
Proof.
  induction buf as [|x buf IH] using rev_ind; [done|].
  intros [Hbuf Hx%Forall_inv]%Forall_app. rewrite SetBytes_snoc.
  specialize (IH Hbuf). unfold is_byte in Hx. lia.
Qed.

Lemma SetBytes_inj (buf1 buf2 : bytes) :
  length buf1 = length buf2 → Forall is_byte buf1 → Forall is_byte buf2 →
  SetBytes buf1 = SetBytes buf2 → buf1 = buf2.
Proof.
  revert buf2. induction buf1 as [|x buf1 IH] using rev_ind; intros buf2.
  { destruct buf2; [done|]. simpl. lia. }
  destruct buf2 as [|y buf2 _] using rev_ind.
  { rewrite length_app. simpl. lia. }
  rewrite !length_app, !SetBytes_snoc. simpl.
  intros Hlen [H1 Hx%Forall_inv]%Forall_app
    [H2 Hy%Forall_inv]%Forall_app Heq.
  unfold is_byte in *.
  assert (SetBytes buf1 = SetBytes buf2 ∧ x = y) as [Hbuf ->] by lia.
  f_equal. apply IH; [lia|done..].
Qed.

(** X22. [GetDistance] is symmetric, is zero from an identifier to
    itself, and composes by XOR along a third identifier; between
    identifiers of the same length, made of bytes, it is never negative
    and is zero only if they are the same. *)
Theorem GetDistance_metric (id1 id2 id3 : bytes) :
  GetDistance id1 id2 = GetDistance id2 id1
  ∧ GetDistance id1 id1 = 0
  ∧ Z.lxor (GetDistance id1 id2) (GetDistance id2 id3) = GetDistance id1 id3
  ∧ (length id1 = length id2 → Forall is_byte id1 → Forall is_byte id2 →
     0 ≤ GetDistance id1 id2 ∧ (GetDistance id1 id2 = 0 ↔ id1 = id2)).
Proof.
  unfold GetDistance. split_and!.
  - apply Z.lxor_comm.
  - apply Z.lxor_nilpotent.
  - rewrite Z.lxor_assoc, <-(Z.lxor_assoc (SetBytes id2)).
    by rewrite Z.lxor_nilpotent, Z.lxor_0_l.
  - intros Hlen H1 H2. split.
    + apply Z.lxor_nonneg. split; intros _; by apply SetBytes_nonneg.
    + split; [|intros ->; apply Z.lxor_nilpotent].
      intros Hzero%Z.lxor_eq. by apply SetBytes_inj.
Qed.

Lemma GetDistance_metric_witness :
  0 ≤ GetDistance [1; 2] [1; 3] ∧ (GetDistance [1; 2] [1; 3] = 0 ↔ [1; 2] = [1; 3]).
Proof.
  apply (GetDistance_metric [1; 2] [1; 3] []); [reflexivity|..];
    repeat (constructor; [unfold is_byte; lia|]); constructor.
Defined.

End host_facts.

(** ** Discovery bootstrap *)

Module bootstrap_facts.
Import core bootstrap.

(** A node keeper that is a list of nodes, and keys that import as they
    are. *)
#[local] Instance plain_keeper : Keeper := {|
  NodeKeeper := list Node;
  GetActiveNode := λ nk ref, head (filter (λ n, ID n = ref) nk);
  GetActiveNodeByShortID := λ nk sid, head (filter (λ n, ShortID n = sid) nk);
  AddActiveNodes := λ nk nodes, nk ++ nodes;
  ImportPublicKeyPEM := λ pem, inr pem
|}.

Definition discovery (id sid : Z) : NodeStruct :=
  {| NS_ID := [id]; NS_SID := sid; NS_Role := StaticRoleVirtual; NS_PK := [1];
     NS_Address := "10.0.0.2:7900"; NS_Version := "v" |}.

Definition known (id sid : Z) : Node :=
  {| ID := [id]; ShortID := sid; Role := StaticRoleVirtual; PublicKey := [1];
     PhysicalAddress := "10.0.0.2:7900"; Version := "v" |}.

(** Two discovery nodes besides the origin; the second round of pings
    reaches both; they answer the genesis request as nodes 2 and 3 with
    the short identifiers given. *)
Definition two_peers (sid2 sid3 : Z) : Env :=
  {| removeOrigin := (["d2:7900"; "d3:7900"], None);
     connects := [["d2:7900"]; ["d2:7900"; "d3:7900"]];
     pulseSet := Some 65537;
     genesis := [ {| LastPulse := 65540; Discovery := discovery 2 sid2 |};
                  {| LastPulse := 65539; Discovery := discovery 3 sid3 |} ] |}.

Definition nodes_known (nk : list Node) : @NodeKeeper plain_keeper := nk.

Definition fresh : bootstrapper :=
  {| keeper := nodes_known [known 1 11]; lastPulse := 0; pulsePersisted := false |}.

Example bootstrap_joins :
  BootstrapDiscovery fresh (two_peers 12 13)
  = Returned None {| keeper := nodes_known [known 1 11; known 2 12; known 3 13];
                     lastPulse := 65540; pulsePersisted := true |}.
Proof. reflexivity. Qed.

Section bootstrap_checks.
Context `{Keeper}.

Definition collides (bc : bootstrapper) (node : Node) : Prop :=
  is_Some (GetActiveNode (keeper bc) (ID node))
  ∨ is_Some (GetActiveNodeByShortID (keeper bc) (ShortID node)).

Definition collision (err : error) : Prop :=
  ∃ cause, err = Wrap cause "Discovery check of node %s failed"
    ∧ (cause = New "Node ID collision: %s" ∨ cause = New "Short ID collision: %d").

Lemma checkActiveNode_collides (bc : bootstrapper) (node : Node) :
  collides bc node →
  checkActiveNode bc node = Some (New "Node ID collision: %s")
  ∨ checkActiveNode bc node = Some (New "Short ID collision: %d").
Proof.
  unfold collides, checkActiveNode.
  destruct (GetActiveNode _ _); [by left|].
  intros [[? [=]]|[n ->]]. by right.
Qed.

Lemma checkActiveNodes_collides (bc : bootstrapper) (activeNodes : list Node)
    (node : Node) :
  node ∈ activeNodes → collides bc node →
  ∃ err, checkActiveNodes bc activeNodes = Some err ∧ collision err.
Proof.
  intros Hin Hnode.
  induction activeNodes as [|n rest IH]; [by apply elem_of_nil in Hin|].
  simpl. destruct (checkActiveNode bc n) as [cause|] eqn:Hn.
  - exists (Wrap cause "Discovery check of node %s failed"). split; [done|].
    exists cause. split; [done|].
    unfold checkActiveNode in Hn. repeat case_match; naive_solver.
  - apply elem_of_cons in Hin as [->|Hin]; [|by apply IH].
    destruct (checkActiveNode_collides bc n Hnode); congruence.
Qed.

Lemma awaitLock_keeper (bc bc' : bootstrapper) (set : option Z) :
  awaitLock bc set = Some bc' → keeper bc' = keeper bc.
Proof.
  unfold awaitLock, SetLastPulse.
  destruct (pulsePersisted bc) eqn:Hp; simpl; [by intros [= <-]|].
  destruct set; [|done]. by intros [= <-].
Qed.

(** C8. During discovery bootstrap, once the genesis answers are in, if
    any received active node carries a NodeID or a ShortID that already
    belongs to a known active node, [BootstrapDiscovery] fails with a
    collision error and the node keeper is as it was: none of the
    received nodes has been added. *)
Theorem collision_aborts_join (bc bc1 : bootstrapper) (env : Env)
    (discoveryNodes hosts : list string) (activeNodes : list Node)
    (lastPulses : list Z) (node : Node) :
  removeOrigin env = (discoveryNodes, None) →
  discoveryNodes ≠ [] →
  connectAll (length discoveryNodes) (connects env) = Some hosts →
  awaitLock bc (pulseSet env) = Some bc1 →
  waitGenesisResults (genesis env) (length hosts) [] [] = (activeNodes, lastPulses, None) →
  node ∈ activeNodes →
  collides bc node →
  ∃ err bc', BootstrapDiscovery bc env = Returned (Some err) bc'
    ∧ collision err
    ∧ keeper bc' = keeper bc.
Proof.
  intros Hremove Hsome Hconnect Hlock Hgenesis Hin Hnode.
  unfold BootstrapDiscovery. rewrite Hremove.
  rewrite bool_decide_eq_false_2 by (by destruct discoveryNodes).
  rewrite Hconnect, Hlock, Hgenesis.
  apply awaitLock_keeper in Hlock.
  set (bc2 := forceSetLastPulse bc1 _).
  assert (Hnode2 : collides bc2 node) by (unfold collides; simpl; by rewrite Hlock).
  destruct (checkActiveNodes_collides bc2 activeNodes node Hin Hnode2)
    as (err & -> & Herr).
  by exists err, bc2.
Qed.

End bootstrap_checks.

Lemma collision_aborts_join_witness :
  ∃ err bc', BootstrapDiscovery fresh (two_peers 12 11) = Returned (Some err) bc'
    ∧ collision err
    ∧ keeper bc' = nodes_known [known 1 11].
Proof.
  apply (collision_aborts_join fresh
           {| keeper := nodes_known [known 1 11]; lastPulse := 65537;
              pulsePersisted := true |}
           (two_peers 12 11) ["d2:7900"; "d3:7900"] ["d2:7900"; "d3:7900"]
           [known 2 12; known 3 11] [65540; 65539] (known 3 11)).
  - reflexivity.
  - discriminate.
  - reflexivity.
  - reflexivity.
  - reflexivity.
  - apply list_elem_of_In. simpl. tauto.
  - right. simpl. eexists. reflexivity.
Defined.

(** *** Further properties of the bootstrap *)

Section more_bootstrap_checks.
Context `{Keeper}.

(** X23. [SetLastPulse] takes effect once: the first call sets the pulse
    and opens the gate, every later call changes nothing, and after any
    call the gate lets [BootstrapDiscovery] pass without a further
    pulse. *)
Theorem SetLastPulse_once (bc : bootstrapper) (number later : Z) :
  SetLastPulse (SetLastPulse bc number) later = SetLastPulse bc number
  ∧ pulsePersisted (SetLastPulse bc number) = true
  ∧ GetLastPulse (SetLastPulse bc number)
    = (if pulsePersisted bc then GetLastPulse bc else number)
  ∧ keeper (SetLastPulse bc number) = keeper bc
  ∧ awaitLock (SetLastPulse bc number) None = Some (SetLastPulse bc number).
Proof.
  unfold SetLastPulse, awaitLock, GetLastPulse.
  destruct (pulsePersisted bc) eqn:Hp; simpl; by rewrite ?Hp.
Qed.

Lemma greatest_pulse (start : Z) (lastPulses : list Z) :
  let maxLastPulse :=
    foldl (λ maxLastPulse pulse,
             if bool_decide (pulse > maxLastPulse) then pulse else maxLastPulse)
          start lastPulses in
  maxLastPulse ∈ start :: lastPulses
  ∧ start ≤ maxLastPulse
  ∧ ∀ pulse, pulse ∈ lastPulses → pulse ≤ maxLastPulse.
Proof.
  revert start. induction lastPulses as [|p l IH]; intros start; simpl.
  { split_and!; [by left|done|by intros ? ?%elem_of_nil]. }
  destruct (IH (if bool_decide (p > start) then p else start)) as (Hin & Hge & Hall).
  split_and!.
  - revert Hin. rewrite !elem_of_cons. case_bool_decide; tauto.
  - case_bool_decide; lia.
  - intros pulse [->|Hp]%elem_of_cons; [case_bool_decide; lia|by apply Hall].
Qed.

(** X24. [calculateLastIgnoredPulse] is the greatest of the node's own
    last pulse and the pulses received: it is one of them and none of
    them is greater. *)
Theorem calculateLastIgnoredPulse_max (bc : bootstrapper) (lastPulses : list Z) :
  let maxLastPulse := calculateLastIgnoredPulse bc lastPulses in
  maxLastPulse ∈ GetLastPulse bc :: lastPulses
  ∧ GetLastPulse bc ≤ maxLastPulse
  ∧ ∀ pulse, pulse ∈ lastPulses → pulse ≤ maxLastPulse.
Proof.
  unfold calculateLastIgnoredPulse. apply greatest_pulse.
Qed.

Lemma waitGenesisResults_shape (arriving : list GenesisRequest) (count : nat)
    (acc discovered : list Node) (lastPulses pulses : list Z) :
  waitGenesisResults arriving count acc pulses = (discovered, lastPulses, None) →
  ∃ taken nodes,
    taken `prefix_of` arriving
    ∧ discovered = acc ++ nodes
    ∧ lastPulses = pulses ++ (LastPulse <$> taken)
    ∧ Forall2 (λ res node, newNode (Discovery res) = inr node) taken nodes
    ∧ length discovered = count.
Proof.
  revert acc pulses. induction arriving as [|res arriving IH]; intros acc pulses; simpl;
    [done|].
  destruct (newNode (Discovery res)) as [e|node] eqn:Hnode; [done|].
  case_bool_decide as Hcount.
  - intros [= <- <-]. exists [res], [node]. split_and!; try done.
    + by apply prefix_cons, prefix_nil.
    + by constructor.
  - intros Hrun. destruct (IH _ _ Hrun) as (taken & nodes & Hpre & -> & -> & Hall & Hn).
    exists (res :: taken), (node :: nodes). split_and!; try done.
    + by apply prefix_cons.
    + by rewrite <-(assoc_L (++)).
    + by rewrite <-(assoc_L (++)).
    + by constructor.
Qed.

(** X25. When [waitGenesisResults] ends without error it has exactly
    [count] nodes and [count] pulses: those of the first [count]
    responses that arrived, in their order, each node being the one its
    response deserializes to. *)
Theorem waitGenesisResults_complete (arriving : list GenesisRequest) (count : nat)
    (discovered : list Node) (lastPulses : list Z) :
  waitGenesisResults arriving count [] [] = (discovered, lastPulses, None) →
  length discovered = count
  ∧ lastPulses = LastPulse <$> take count arriving
  ∧ Forall2 (λ res node, newNode (Discovery res) = inr node)
            (take count arriving) discovered.
Proof.
  intros Hrun.
  destruct (waitGenesisResults_shape arriving count [] discovered lastPulses []
              Hrun) as (taken & nodes & [rest ->] & -> & -> & Hall & Hlen).
  simpl in *. apply Forall2_length in Hall as Htaken.
  assert (Htake : take count (taken ++ rest) = taken).
  { rewrite take_app_le by lia. apply take_ge. lia. }
  by rewrite Htake.
Qed.

Lemma checkActiveNodes_clean (bc : bootstrapper) (activeNodes : list Node) :
  checkActiveNodes bc activeNodes = None →
  ∀ node, node ∈ activeNodes → ¬ collides bc node.
Proof.
  induction activeNodes as [|n rest IH]; simpl; [by intros _ ? ?%elem_of_nil|].
  destruct (checkActiveNode bc n) eqn:Hn; [done|].
  intros Hrest node [->|Hin]%elem_of_cons; [|by apply IH].
  intros Hcollides. destruct (checkActiveNode_collides bc n Hcollides); congruence.
Qed.

(** X26. [BootstrapDiscovery] touches the active node set only when it
    succeeds: every return with an error leaves the node keeper as it
    was; a return without error, with discovery nodes besides the
    origin, has added exactly the nodes received, one per discovery
    node, none of which collided with a known node, and leaves the last
    pulse at no less than any pulse received. *)
Theorem BootstrapDiscovery_adds_on_success (bc bc' : bootstrapper) (env : Env)
    (err : option error) :
  BootstrapDiscovery bc env = Returned err bc' →
  (is_Some err → keeper bc' = keeper bc)
  ∧ (err = None → (removeOrigin env).1 ≠ [] →
     ∃ (hosts : list string) activeNodes lastPulses,
       waitGenesisResults (genesis env) (length hosts) [] []
         = (activeNodes, lastPulses, None)
       ∧ keeper bc' = AddActiveNodes (keeper bc) activeNodes
       ∧ length activeNodes = length (removeOrigin env).1
       ∧ (∀ node, node ∈ activeNodes → ¬ collides bc node)
       ∧ (∀ pulse, pulse ∈ lastPulses → pulse ≤ lastPulse bc')).
Proof.
  unfold BootstrapDiscovery.
  destruct (removeOrigin env) as [ds [e|]]; simpl.
  { intros [= <- <-]. split; [done|]. by intros [=]. }
  case_bool_decide as Hds.
  { intros [= <- <-]. split; [by intros [? [=]]|]. intros _. by destruct ds. }
  destruct (connectAll (length ds) (connects env)) as [hosts|] eqn:Hconnect; [|done].
  destruct (awaitLock bc (pulseSet env)) as [bc1|] eqn:Hlock; [|done].
  apply awaitLock_keeper in Hlock as Hkeeper.
  destruct (waitGenesisResults (genesis env) (length hosts) [] [])
    as [[activeNodes lastPulses] [e|]] eqn:Hgenesis.
  { intros [= <- <-]. split; [done|by intros [=]]. }
  set (bc2 := forceSetLastPulse bc1 _).
  destruct (checkActiveNodes bc2 activeNodes) as [e|] eqn:Hcheck.
  { intros [= <- <-]. split; [done|by intros [=]]. }
  intros [= <- <-]. split; [by intros [? [=]]|]. intros _ _.
  exists hosts, activeNodes, lastPulses. simpl. split_and!; try done.
  - by rewrite Hkeeper.
  - apply waitGenesisResults_shape in Hgenesis as (_ & _ & _ & _ & _ & _ & ->).
    clear -Hconnect. induction (connects env) as [|round rounds IH]; [done|].
    simpl in Hconnect. case_bool_decide; [by simplify_eq|by apply IH].
  - intros node Hin Hcollides.
    apply (checkActiveNodes_clean bc2 activeNodes Hcheck node Hin).
    unfold collides in *. simpl. by rewrite Hkeeper.
  - intros pulse Hin.
    by apply (greatest_pulse (GetLastPulse bc1) lastPulses).
Qed.

End more_bootstrap_checks.

Lemma calculateLastIgnoredPulse_max_witness :
  65539 ≤ calculateLastIgnoredPulse fresh [65540; 65539].
Proof.
  apply (calculateLastIgnoredPulse_max fresh [65540; 65539]).
  apply list_elem_of_In. simpl. tauto.
Defined.

Lemma waitGenesisResults_complete_witness :
  ∃ discovered lastPulses,
    waitGenesisResults (genesis (two_peers 12 13)) 2 [] [] = (discovered, lastPulses, None)
    ∧ length discovered = 2%nat
    ∧ lastPulses = [65540; 65539].
Proof.
  destruct (waitGenesisResults (genesis (two_peers 12 13)) 2 [] [])
    as [[discovered lastPulses] [e|]] eqn:Hrun; [by vm_compute in Hrun|].
  exists discovered, lastPulses. split; [done|].
  destruct (waitGenesisResults_complete _ _ _ _ Hrun) as (Hlen & Hpulses & _).
  split; [exact Hlen|exact Hpulses].
Defined.

Lemma BootstrapDiscovery_adds_on_success_witness :
  ∃ bc', BootstrapDiscovery fresh (two_peers 12 13) = Returned None bc'
    ∧ ∃ activeNodes,
        keeper bc' = AddActiveNodes (keeper fresh) activeNodes
        ∧ length activeNodes = 2%nat.
Proof.
  destruct (BootstrapDiscovery fresh (two_peers 12 13)) as [[e|] bc'|] eqn:Hrun;
    try by vm_compute in Hrun.
  exists bc'. split; [done|].
  destruct (proj2 (BootstrapDiscovery_adds_on_success fresh bc' (two_peers 12 13) None Hrun)
              eq_refl ltac:(discriminate))
    as (hosts & activeNodes & lastPulses & _ & Hkeeper & Hlen & _).
  by exists activeNodes.
Defined.

Lemma bootstrap_loop_runs (options : Options) (failures : list error) :
  ∀ (minTO : Z) (slept0 : list Z),
  ∃ more,
    length more = length failures
    ∧ head more = (if decide (failures = []) then None else Some minTO)
    ∧ Forall (λ d, d ≤ MaxTimeout options) (tail more)
    ∧ (∀ host rest,
         bootstrap_loop minTO options ((inl <$> failures) ++ inr host :: rest) slept0
         = Finished (inr host) (slept0 ++ more))
    ∧ bootstrap_loop minTO options (inl <$> failures) slept0 = Unfinished (slept0 ++ more).
Proof.
  induction failures as [|e failures IH]; intros minTO slept0.
  { exists []. rewrite app_nil_r. by split_and!. }
  set (next := if bool_decide (host.wrap64 (minTO * TimeoutMult options) > MaxTimeout options)
               then MaxTimeout options
               else host.wrap64 (minTO * TimeoutMult options)).
  destruct (IH next (slept0 ++ [minTO])) as (more & Hlen & Hhead & Htail & Hends & Hgoes).
  exists (minTO :: more). split_and!.
  - simpl. by rewrite Hlen.
  - done.
  - simpl. destruct more as [|d more]; [done|]. simpl in *. constructor; [|done].
    destruct (decide (failures = [])); [done|]. injection Hhead as ->.
    unfold next. case_bool_decide; lia.
  - intros host rest.
    transitivity (bootstrap_loop next options ((inl <$> failures) ++ inr host :: rest)
                    (slept0 ++ [minTO])); [reflexivity|].
    rewrite Hends. by rewrite <-(assoc_L (++)).
  - transitivity (bootstrap_loop next options (inl <$> failures) (slept0 ++ [minTO]));
      [reflexivity|].
    rewrite Hgoes. by rewrite <-(assoc_L (++)).
Qed.

(** X27. [bootstrap] without [InfinityBootstrap] makes one attempt and
    returns what it returned, error or host, without sleeping. With
    [InfinityBootstrap] it returns as soon as an attempt yields a host,
    with that host and no error, having slept once after every failed
    attempt before it, first for [MinTimeout] and then never longer
    than [MaxTimeout]; and as long as the attempts fail it does not
    return, so it never returns an error. *)
Theorem bootstrap_retries (options : Options) :
  (InfinityBootstrap options = false →
   ∀ result_ rest, bootstrap options (result_ :: rest) = Finished result_ [])
  ∧ (InfinityBootstrap options = true →
     ∀ failures : list error,
       (∀ host rest, ∃ slept,
          bootstrap options ((inl <$> failures) ++ inr host :: rest)
          = Finished (inr host) slept
          ∧ length slept = length failures
          ∧ head slept
            = (if decide (failures = []) then None else Some (MinTimeout options))
          ∧ Forall (λ d, d ≤ MaxTimeout options) (tail slept))
       ∧ ∃ slept,
           bootstrap options (inl <$> failures) = Unfinished slept
           ∧ length slept = length failures).
Proof.
  unfold bootstrap. split; intros ->; simpl; [done|].
  intros failures.
  destruct (bootstrap_loop_runs options failures (MinTimeout options) [])
    as (more & Hlen & Hhead & Htail & Hends & Hgoes).
  split.
  - intros host rest. exists more. by rewrite Hends.
  - exists more. by rewrite Hgoes.
Qed.

(** Retrying without end, from one second, doubling, up to five
    seconds. *)
Definition patient : Options :=
  {| InfinityBootstrap := true; MinTimeout := 1000000000; MaxTimeout := 5000000000;
     TimeoutMult := 2 |}.

Lemma bootstrap_retries_witness :
  ∃ slept,
    bootstrap patient [inl (New "timeout"); inl (New "timeout"); inl (New "timeout");
                       inl (New "timeout"); inr "10.0.0.2:7900"; inl (New "timeout")]
    = Finished (inr "10.0.0.2:7900") slept
    ∧ length slept = 4%nat
    ∧ Forall (λ d, d ≤ 5000000000) (tail slept).
Proof.
  destruct (proj1 (proj2 (bootstrap_retries patient) eq_refl
                     [New "timeout"; New "timeout"; New "timeout"; New "timeout"])
              "10.0.0.2:7900" [inl (New "timeout")])
    as (slept & Hrun & Hlen & _ & Hbound).
  exists slept. split_and!; [exact Hrun|exact Hlen|exact Hbound].
Defined.

End bootstrap_facts.
